(** * The ordered-table comparator of parquet_compare_ordered_table.py

    A shallow embedding of [series_nonequal_index], [calculate_pct_mismatch]
    and [compare_data], together with the parts of Python, NumPy and pandas
    those functions rely on, and the properties of the comparison report
    that follow from the code.

    Conventions of the embedding.
    - A Python exception is a value [Raise e] of the type [result].  The
      exception [OutOfModel] marks inputs whose pandas behaviour is not
      described here (null, array-valued or mixed-kind key cells, arithmetic
      on arrays, on numbers held as Python objects and on nulls outside
      float columns); nothing is claimed about them.
    - Numbers in cells are integers.  A float64 column is a column whose dtype
      tag is [Float64]; its cells hold integer-valued floats, and NaN is the
      null cell.  Subtraction and [abs] on integer columns wrap around in
      the width of the dtype, as NumPy computes them.  Quotients computed by
      the code (the percentages) are exact rationals in reduced form instead
      of binary floats.
    - A Python [set] is a duplicate-free list; where Python leaves the
      iteration order of a set open, the list keeps the order of first
      occurrence.
    - [sort_values] is modelled by a stable sort.  NumPy's default quicksort
      does not fix the relative order of rows with equal keys; for short
      inputs it is an insertion sort and agrees with the model. *)

From Stdlib Require Import String Ascii.
From Stdlib Require Import List ZArith QArith Bool Lia Arith.
From Stdlib Require Import Permutation Sorted.
Import ListNotations.

Close Scope Q_scope.
Open Scope nat_scope.
Open Scope list_scope.

(** ** Python: exceptions, sets, sorted *)

Module Py.

Inductive exn : Type :=
| AttributeError
| KeyError
| AxisError
| ValueError
| TypeError
| ZeroDivisionError
| OutOfModel.

Inductive result (A : Type) : Type :=
| Ok (a : A)
| Raise (e : exn).

Arguments Ok {A} a.
Arguments Raise {A} e.

Definition bind {A B : Type} (m : result A) (k : A -> result B) : result B :=
  match m with
  | Ok a => k a
  | Raise e => Raise e
  end.

Fixpoint mapM {A B : Type} (f : A -> result B) (l : list A) : result (list B) :=
  match l with
  | [] => Ok []
  | x :: xs =>
      bind (f x) (fun y => bind (mapM f xs) (fun ys => Ok (y :: ys)))
  end.

Section ListsAsSets.
Context {A : Type}.
Variable eqb : A -> A -> bool.

(** [x in l] *)
Definition mem (x : A) (l : list A) : bool := existsb (eqb x) l.

(** [set(l)] *)
Fixpoint set_of (l : list A) : list A :=
  match l with
  | [] => []
  | x :: xs => x :: filter (fun y => negb (eqb x y)) (set_of xs)
  end.

(** [set(a) - set(b)] *)
Definition set_diff (a b : list A) : list A :=
  filter (fun x => negb (mem x b)) (set_of a).

(** [set(a) & set(b)] *)
Definition set_inter (a b : list A) : list A :=
  filter (fun x => mem x b) (set_of a).

(** [set(a) ^ set(b)] *)
Definition set_symdiff (a b : list A) : list A :=
  set_diff a b ++ set_diff b a.

(** [set(a).issubset(b)] *)
Definition issubset (a b : list A) : bool :=
  forallb (fun x => mem x b) a.

(** [set(a) == set(b)] *)
Definition set_eqb (a b : list A) : bool :=
  issubset a b && issubset b a.

(** [l.count(x)] *)
Definition count (x : A) (l : list A) : nat :=
  length (filter (eqb x) l).

(** Position of the first element equal to [x]. *)
Fixpoint index_of (x : A) (l : list A) : option nat :=
  match l with
  | [] => None
  | y :: ys => if eqb x y then Some 0 else option_map S (index_of x ys)
  end.
End ListsAsSets.

Section Sorting.
Context {A : Type}.
Variable leb : A -> A -> bool.

Fixpoint insert (x : A) (l : list A) : list A :=
  match l with
  | [] => [x]
  | y :: ys => if leb x y then x :: y :: ys else y :: insert x ys
  end.

(** A stable ascending sort: an element goes in front of the elements
    equal to it that came later in the input. *)
Fixpoint sorted (l : list A) : list A :=
  match l with
  | [] => []
  | x :: xs => insert x (sorted xs)
  end.
End Sorting.

End Py.

Import Py.

Notation "x <- m ;; k" := (bind m (fun x => k))
  (at level 61, m at next level, right associativity).
Notation "' pat <- m ;; k" := (bind m (fun x => match x with pat => k end))
  (at level 61, pat pattern, m at next level, right associativity).

(** ** Cells, dtypes, labels *)

(** A hashable scalar: an integer or a string. *)
Inductive scalar : Type :=
| SInt (z : Z)
| SStr (s : string).

(** A cell of a column: a null (None or NaN), a scalar, or a one-dimensional
    array of integer codes. *)
Inductive cell : Type :=
| CNull
| CVal (v : scalar)
| CArr (a : list Z).

(** The declared element type of a column. *)
Inductive dtype : Type :=
| Int64
| Int32
| Float64
| Float32
| BoolT
| Object.

(** A row label of an index; a composite key has one scalar per key column,
    the default RangeIndex has the row number. *)
Abbreviation label := (list scalar).

Definition scalar_eqb (a b : scalar) : bool :=
  match a, b with
  | SInt x, SInt y => Z.eqb x y
  | SStr x, SStr y => String.eqb x y
  | _, _ => false
  end.

Fixpoint list_eqb {A : Type} (eqb : A -> A -> bool) (l1 l2 : list A) : bool :=
  match l1, l2 with
  | [], [] => true
  | x :: xs, y :: ys => eqb x y && list_eqb eqb xs ys
  | _, _ => false
  end.

Definition label_eqb : label -> label -> bool := list_eqb scalar_eqb.

Definition dtype_eqb (a b : dtype) : bool :=
  match a, b with
  | Int64, Int64 | Int32, Int32 | Float64, Float64
  | Float32, Float32 | BoolT, BoolT | Object, Object => true
  | _, _ => false
  end.

(** Python's [<=] on scalars of one kind.  Scalars of different kinds are not
    ordered in Python; the labels of one index always have the same kinds
    (see [key_column_ok]), so the last two cases only make the order total. *)
Definition scalar_leb (a b : scalar) : bool :=
  match a, b with
  | SInt x, SInt y => Z.leb x y
  | SStr x, SStr y => String.leb x y
  | SInt _, SStr _ => true
  | SStr _, SInt _ => false
  end.

(** Tuples compare lexicographically. *)
Fixpoint label_leb (a b : label) : bool :=
  match a, b with
  | [], _ => true
  | _ :: _, [] => false
  | x :: xs, y :: ys =>
      if scalar_eqb x y then label_leb xs ys else scalar_leb x y
  end.

(** ** NumPy *)

Module Np.

(** [np.sort(c)]: sorts a one-dimensional array; a scalar or None becomes a
    zero-dimensional array, for which the default [axis=-1] is out of
    bounds. *)
Definition sort (c : cell) : result cell :=
  match c with
  | CArr a => Ok (CArr (sorted Z.leb a))
  | _ => Raise AxisError
  end.

(** [np.array_equal(c1, c2)]: equal shape and all elements equal.  The
    comparator applies it to non-null cells only; a NaN is not equal to
    itself. *)
Definition array_equal (c1 c2 : cell) : bool :=
  match c1, c2 with
  | CVal a, CVal b => scalar_eqb a b
  | CArr a, CArr b => list_eqb Z.eqb a b
  | _, _ => false
  end.

(** [np.vectorize(f)(xs, ys)] without [otypes]: the output type is found by
    calling [f] on the first elements, so inputs of size 0 are refused. *)
Definition vectorize {A B C : Type} (f : A -> B -> C)
    (xs : list A) (ys : list B) : result (list C) :=
  match xs, ys with
  | [], _ | _, [] => Raise ValueError
  | _, _ => Ok (map (fun p => f (fst p) (snd p)) (combine xs ys))
  end.

End Np.

(** ** pandas *)

Module Pd.

Record column : Type := mk_column {
  cdtype : dtype;
  cells : list cell
}.

Record series : Type := mk_series {
  sindex : list label;
  sdtype : dtype;
  svalues : list cell
}.

Record frame : Type := mk_frame {
  index : list label;
  columns : list (string * column)
}.

Definition column_names (df : frame) : list string := map fst (columns df).

Definition len (df : frame) : nat := length (index df).

Definition RangeIndex (n : nat) : list label :=
  map (fun i => [SInt (Z.of_nat i)]) (seq 0 n).

Fixpoint lookup_column (c : string) (cols : list (string * column))
    : option column :=
  match cols with
  | [] => None
  | (n, col) :: rest => if String.eqb c n then Some col else lookup_column c rest
  end.

(** [df[col]] *)
Definition getitem (df : frame) (c : string) : result series :=
  match lookup_column c (columns df) with
  | Some col => Ok (mk_series (index df) (cdtype col) (cells col))
  | None => Raise KeyError
  end.

(** Attribute access [df.col]. *)
Definition getattr (df : frame) (c : string) : result series :=
  match lookup_column c (columns df) with
  | Some col => Ok (mk_series (index df) (cdtype col) (cells col))
  | None => Raise AttributeError
  end.

(** [ser[k]] for a label [k]. *)
Definition series_get (s : series) (k : label) : result cell :=
  match index_of label_eqb k (sindex s) with
  | Some i => Ok (nth i (svalues s) CNull)
  | None => Raise KeyError
  end.

Fixpoint set_nth {A : Type} (i : nat) (v : A) (l : list A) : list A :=
  match l, i with
  | [], _ => []
  | _ :: xs, O => v :: xs
  | x :: xs, S j => x :: set_nth j v xs
  end.

Fixpoint update_column (c : string) (f : column -> column)
    (cols : list (string * column)) : list (string * column) :=
  match cols with
  | [] => []
  | (n, col) :: rest =>
      if String.eqb c n then (n, f col) :: rest
      else (n, col) :: update_column c f rest
  end.

(** [df.col[k] = v]: the series is a view of the frame's column, the write
    goes through to the frame. *)
Definition set_cell (df : frame) (c : string) (k : label) (v : cell)
    : result frame :=
  match index_of label_eqb k (index df) with
  | Some i =>
      Ok (mk_frame (index df)
            (update_column c
               (fun col => mk_column (cdtype col) (set_nth i v (cells col)))
               (columns df)))
  | None => Raise KeyError
  end.

(** Row selection by positions ([take], the common core of sorting, boolean
    masks and [loc] with a list of labels). *)
Definition take (ps : list nat) (df : frame) : frame :=
  mk_frame
    (map (fun p => nth p (index df) []) ps)
    (map (fun nc =>
            (fst nc,
             mk_column (cdtype (snd nc))
               (map (fun p => nth p (cells (snd nc)) CNull) ps)))
         (columns df)).

(** [df.drop(cs, axis=1)] for names that are all present. *)
Definition drop (cs : list string) (df : frame) : frame :=
  mk_frame (index df)
    (filter (fun nc => negb (mem String.eqb (fst nc) cs)) (columns df)).

(** [df.loc[ids]] for a list of labels. *)
Definition loc (df : frame) (ids : list label) : result frame :=
  ps <- mapM (fun k => match index_of label_eqb k (index df) with
                       | Some i => Ok i
                       | None => Raise KeyError
                       end) ids ;;
  Ok (take ps df).

(** [ser.loc[ids]], the values only. *)
Definition series_loc (s : series) (ids : list label) : result (list cell) :=
  mapM (series_get s) ids.

(** [df[mask]] for a boolean mask. *)
Definition mask_positions (m : list bool) : list nat :=
  map fst (filter (fun pb => snd pb) (combine (seq 0 (length m)) m)).

Definition getitem_mask (df : frame) (m : list bool) : frame :=
  take (mask_positions m) df.

Definition is_null (c : cell) : bool :=
  match c with CNull => true | _ => false end.

(** [ser[mask].index] *)
Definition index_where (p : cell -> bool) (s : series) : list label :=
  map fst (filter (fun kc => p (snd kc)) (combine (sindex s) (svalues s))).

(** [Index.equals]: same labels in the same order. *)
Definition index_equals (i1 i2 : list label) : bool :=
  list_eqb label_eqb i1 i2.

(** [array_equivalent] of one pair of cells, as [Series.equals] uses it:
    nulls in the same place are equal, other cells compare by value, arrays
    element by element. *)
Definition array_equivalent (c1 c2 : cell) : bool :=
  match c1, c2 with
  | CNull, CNull => true
  | CNull, _ | _, CNull => false
  | CVal a, CVal b => scalar_eqb a b
  | CArr a, CArr b => list_eqb Z.eqb a b
  | _, _ => false
  end.

(** [ser1.equals(ser2)]: same index, same dtype, equivalent values. *)
Definition series_equals (s1 s2 : series) : bool :=
  index_equals (sindex s1) (sindex s2)
  && dtype_eqb (sdtype s1) (sdtype s2)
  && list_eqb array_equivalent (svalues s1) (svalues s2).

(** [df1[cols].equals(df2[cols])]: same index, and the columns, taken in
    the order of [cols], pairwise of the same dtype with equivalent values. *)
Definition equals_on (cols : list string) (df1 df2 : frame) : bool :=
  index_equals (index df1) (index df2)
  && forallb (fun c =>
                match getitem df1 c, getitem df2 c with
                | Ok s1, Ok s2 => series_equals s1 s2
                | _, _ => false
                end) cols.

(** [index.duplicated(keep=False)] *)
Definition duplicated_all (idx : list label) : list bool :=
  map (fun k => 1 <? count label_eqb k idx) idx.

(** [index.duplicated(keep="first")] *)
Fixpoint duplicated_first_from (seen idx : list label) : list bool :=
  match idx with
  | [] => []
  | k :: ks => mem label_eqb k seen :: duplicated_first_from (k :: seen) ks
  end.

Definition duplicated_first (idx : list label) : list bool :=
  duplicated_first_from [] idx.

(** [idx.value_counts()]: one row per distinct label with its number of
    occurrences, most frequent first. *)
Definition value_counts (idx : list label) : list (label * nat) :=
  sorted (fun a b => snd b <=? snd a)
    (map (fun k => (k, count label_eqb k idx)) (set_of label_eqb idx)).

End Pd.

Import Pd.

(** Key columns: [sort_values] and [set_index].  A key cell is a scalar, and
    the cells of one key column are all integers or all strings; other key
    columns are outside the model. *)
Module Keys.

Fixpoint lookup_all (cs : list string) (cols : list (string * column))
    : option (list column) :=
  match cs with
  | [] => Some []
  | c :: rest =>
      match lookup_column c cols, lookup_all rest cols with
      | Some col, Some more => Some (col :: more)
      | _, _ => None
      end
  end.

Definition same_kind (a b : cell) : bool :=
  match a, b with
  | CVal (SInt _), CVal (SInt _) => true
  | CVal (SStr _), CVal (SStr _) => true
  | _, _ => false
  end.

Definition key_column_ok (col : column) : bool :=
  match cells col with
  | [] => true
  | c :: cs => forallb (same_kind c) (c :: cs)
  end.

Definition key_scalar (c : cell) : scalar :=
  match c with
  | CVal v => v
  | _ => SInt 0
  end.

(** The label of every row: one scalar from each key column. *)
Definition key_labels (kcols : list column) (n : nat) : list label :=
  map (fun i => map (fun kc => key_scalar (nth i (cells kc) CNull)) kcols)
      (seq 0 n).

(** Positions of the rows in ascending key order. *)
Definition argsort (keys : list label) : list nat :=
  map snd
    (sorted (fun a b => label_leb (fst a) (fst b))
       (combine keys (seq 0 (length keys)))).

(** [df.sort_values(by, inplace=True)] *)
Definition sort_values (by_ : list string) (df : frame) : result frame :=
  match lookup_all by_ (columns df) with
  | None => Raise KeyError
  | Some kcols =>
      if forallb key_column_ok kcols
      then Ok (take (argsort (key_labels kcols (len df))) df)
      else Raise OutOfModel
  end.

(** [df.set_index(keys, inplace=True)]: the key columns become the index and
    leave the columns. *)
Definition set_index (keys : list string) (df : frame) : result frame :=
  match lookup_all keys (columns df) with
  | None => Raise KeyError
  | Some kcols =>
      if forallb key_column_ok kcols
      then Ok (mk_frame (key_labels kcols (len df)) (columns (drop keys df)))
      else Raise OutOfModel
  end.

End Keys.

Import Keys.

(** ** The report *)

(** A float computed by the code: a finite value, an infinity from a division
    by zero, or NaN. *)
Inductive number : Type :=
| Fin (q : Q)
| Inf
| NaN.

(** The mismatch table of one column: the mismatching labels with the left
    and the right value side by side, and the optional relative-mismatch
    column. *)
Record mismatch_table : Type := mk_mismatch_table {
  mt_index : list label;
  mt_left : string * list cell;
  mt_right : string * list cell;
  mt_pct : option (string * list number)
}.

Record ColumnResult : Type := mk_ColumnResult {
  dtype_match : bool;
  left_dtype : dtype;
  right_dtype : dtype;
  mismatch_percent : Q;
  mismatch_number : nat;
  mismatch_data : mismatch_table
}.

Record CompareResult : Type := mk_CompareResult {
  file_name : string;
  match_ : bool;
  data_match : bool;
  right_duplicate : bool;
  left_duplicate : bool;
  left_only_columns : option (list string);
  right_only_columns : option (list string);
  index_match : bool;
  left_index_duplicates : option (list (label * nat));
  right_index_duplicates : option (list (label * nat));
  common_index_count : nat;
  left_index_count : nat;
  right_index_count : nat;
  left_only_indexes : list label;
  right_only_indexes : list label;
  column_results : list (string * ColumnResult)
}.

(** [CompareResult()] with its defaults and [__post_init__]. *)
Definition new_CompareResult : CompareResult :=
  mk_CompareResult EmptyString true true false false None None true None None
    0 0 0 [] [] [].

(** Assignments to the fields of the report. *)
Section Setters.
Variable r : CompareResult.

Definition set_file_name (v : string) : CompareResult :=
  mk_CompareResult v (match_ r) (data_match r) (right_duplicate r)
    (left_duplicate r) (left_only_columns r) (right_only_columns r)
    (index_match r) (left_index_duplicates r) (right_index_duplicates r)
    (common_index_count r) (left_index_count r) (right_index_count r)
    (left_only_indexes r) (right_only_indexes r) (column_results r).

Definition set_match (v : bool) : CompareResult :=
  mk_CompareResult (file_name r) v (data_match r) (right_duplicate r)
    (left_duplicate r) (left_only_columns r) (right_only_columns r)
    (index_match r) (left_index_duplicates r) (right_index_duplicates r)
    (common_index_count r) (left_index_count r) (right_index_count r)
    (left_only_indexes r) (right_only_indexes r) (column_results r).

Definition set_data_match (v : bool) : CompareResult :=
  mk_CompareResult (file_name r) (match_ r) v (right_duplicate r)
    (left_duplicate r) (left_only_columns r) (right_only_columns r)
    (index_match r) (left_index_duplicates r) (right_index_duplicates r)
    (common_index_count r) (left_index_count r) (right_index_count r)
    (left_only_indexes r) (right_only_indexes r) (column_results r).

Definition set_right_duplicate (v : bool) : CompareResult :=
  mk_CompareResult (file_name r) (match_ r) (data_match r) v
    (left_duplicate r) (left_only_columns r) (right_only_columns r)
    (index_match r) (left_index_duplicates r) (right_index_duplicates r)
    (common_index_count r) (left_index_count r) (right_index_count r)
    (left_only_indexes r) (right_only_indexes r) (column_results r).

Definition set_left_duplicate (v : bool) : CompareResult :=
  mk_CompareResult (file_name r) (match_ r) (data_match r)
    (right_duplicate r) v (left_only_columns r) (right_only_columns r)
    (index_match r) (left_index_duplicates r) (right_index_duplicates r)
    (common_index_count r) (left_index_count r) (right_index_count r)
    (left_only_indexes r) (right_only_indexes r) (column_results r).

Definition set_only_columns (l rt : option (list string)) : CompareResult :=
  mk_CompareResult (file_name r) (match_ r) (data_match r)
    (right_duplicate r) (left_duplicate r) l rt
    (index_match r) (left_index_duplicates r) (right_index_duplicates r)
    (common_index_count r) (left_index_count r) (right_index_count r)
    (left_only_indexes r) (right_only_indexes r) (column_results r).

Definition set_index_match (v : bool) : CompareResult :=
  mk_CompareResult (file_name r) (match_ r) (data_match r)
    (right_duplicate r) (left_duplicate r) (left_only_columns r)
    (right_only_columns r) v (left_index_duplicates r)
    (right_index_duplicates r)
    (common_index_count r) (left_index_count r) (right_index_count r)
    (left_only_indexes r) (right_only_indexes r) (column_results r).

Definition set_left_index_duplicates (v : option (list (label * nat)))
    : CompareResult :=
  mk_CompareResult (file_name r) (match_ r) (data_match r)
    (right_duplicate r) (left_duplicate r) (left_only_columns r)
    (right_only_columns r) (index_match r) v (right_index_duplicates r)
    (common_index_count r) (left_index_count r) (right_index_count r)
    (left_only_indexes r) (right_only_indexes r) (column_results r).

Definition set_right_index_duplicates (v : option (list (label * nat)))
    : CompareResult :=
  mk_CompareResult (file_name r) (match_ r) (data_match r)
    (right_duplicate r) (left_duplicate r) (left_only_columns r)
    (right_only_columns r) (index_match r) (left_index_duplicates r) v
    (common_index_count r) (left_index_count r) (right_index_count r)
    (left_only_indexes r) (right_only_indexes r) (column_results r).

Definition set_common_index_count (v : nat) : CompareResult :=
  mk_CompareResult (file_name r) (match_ r) (data_match r)
    (right_duplicate r) (left_duplicate r) (left_only_columns r)
    (right_only_columns r) (index_match r) (left_index_duplicates r)
    (right_index_duplicates r) v (left_index_count r) (right_index_count r)
    (left_only_indexes r) (right_only_indexes r) (column_results r).

Definition set_index_counts (l rt : nat) : CompareResult :=
  mk_CompareResult (file_name r) (match_ r) (data_match r)
    (right_duplicate r) (left_duplicate r) (left_only_columns r)
    (right_only_columns r) (index_match r) (left_index_duplicates r)
    (right_index_duplicates r) (common_index_count r) l rt
    (left_only_indexes r) (right_only_indexes r) (column_results r).

Definition set_only_indexes (l rt : list label) : CompareResult :=
  mk_CompareResult (file_name r) (match_ r) (data_match r)
    (right_duplicate r) (left_duplicate r) (left_only_columns r)
    (right_only_columns r) (index_match r) (left_index_duplicates r)
    (right_index_duplicates r) (common_index_count r) (left_index_count r)
    (right_index_count r) l rt (column_results r).

Definition set_column_results (v : list (string * ColumnResult))
    : CompareResult :=
  mk_CompareResult (file_name r) (match_ r) (data_match r)
    (right_duplicate r) (left_duplicate r) (left_only_columns r)
    (right_only_columns r) (index_match r) (left_index_duplicates r)
    (right_index_duplicates r) (common_index_count r) (left_index_count r)
    (right_index_count r) (left_only_indexes r) (right_only_indexes r) v.
End Setters.

(** [d[k] = v] on a dict that keeps insertion order. *)
Fixpoint dict_set {V : Type} (k : string) (v : V) (d : list (string * V))
    : list (string * V) :=
  match d with
  | [] => [(k, v)]
  | (k', v') :: rest =>
      if String.eqb k k' then (k, v) :: rest else (k', v') :: dict_set k v rest
  end.

Fixpoint dict_get {V : Type} (k : string) (d : list (string * V)) : option V :=
  match d with
  | [] => None
  | (k', v) :: rest => if String.eqb k k' then Some v else dict_get k rest
  end.

(** ** The source functions *)

(** [series_nonequal_index(ser1, ser2)]: the labels at which exactly one
    side is null, followed by the labels at which both sides are non-null and
    [np.array_equal] says they differ. *)
Definition series_nonequal_index (ser1 ser2 : series) : result (list label) :=
  let nonequal_null_idx :=
    set_symdiff label_eqb (index_where is_null ser1)
                          (index_where is_null ser2) in
  let notnull_idx :=
    set_inter label_eqb (index_where (fun c => negb (is_null c)) ser1)
                        (index_where (fun c => negb (is_null c)) ser2) in
  xs <- series_loc ser1 notnull_idx ;;
  ys <- series_loc ser2 notnull_idx ;;
  equal <- Np.vectorize Np.array_equal xs ys ;;
  let nonequal_notnull_idx :=
    map fst (filter (fun kb => negb (snd kb)) (combine notnull_idx equal)) in
  Ok (nonequal_null_idx ++ nonequal_notnull_idx).

(** The arithmetic that pandas chooses for [df1_col - df2_col] from the two
    dtypes: fixed-width integers that wrap around silently, floats, or
    Python objects handled one by one.  bool - bool is refused by NumPy. *)
Inductive arithmetic : Type :=
| Wrapping (bits : Z)
| Floating
| Objects.

Definition arithmetic_of (d1 d2 : dtype) : result arithmetic :=
  match d1, d2 with
  | Object, _ | _, Object => Ok Objects
  | BoolT, BoolT => Raise TypeError
  | Float64, _ | Float32, _ | _, Float64 | _, Float32 => Ok Floating
  | Int64, _ | _, Int64 => Ok (Wrapping 64)
  | _, _ => Ok (Wrapping 32)
  end.

(** The two's-complement value of [z] in [bits] bits. *)
Definition wrap (bits z : Z) : Z :=
  ((z + 2 ^ (bits - 1)) mod 2 ^ bits - 2 ^ (bits - 1))%Z.

(** [abs(a - b)]: in integer arithmetic the difference wraps around, and so
    does [abs], which leaves the least integer as it is. *)
Definition abs_diff (ar : arithmetic) (a b : Z) : Z :=
  match ar with
  | Wrapping bits => wrap bits (Z.abs (wrap bits (a - b)))
  | _ => Z.abs (a - b)
  end.

(** One element of [(abs(df1_col - df2_col) / df1_col) * 100].  The division
    is a float division: pandas divides by zero without raising (the result
    is an infinity, or NaN for 0/0), so the [except ZeroDivisionError] of
    the source does not fire on numeric columns.  A null is a NaN of a float
    column.  Numbers held as Python objects are outside the model. *)
Definition pct_cell (ar : arithmetic) (l r : cell) : result number :=
  match l, r with
  | CVal (SInt a), CVal (SInt b) =>
      match ar with
      | Objects => Raise OutOfModel
      | _ =>
          let n := abs_diff ar a b in
          if (a =? 0)%Z
          then Ok (if (n =? 0)%Z then NaN else Inf)
          else Ok (Fin (Qred (inject_Z n / inject_Z a * inject_Z 100)))
      end
  | CNull, CNull | CNull, CVal (SInt _) | CVal (SInt _), CNull =>
      match ar with
      | Floating => Ok NaN
      | _ => Raise OutOfModel
      end
  | CVal (SStr _), _ | _, CVal (SStr _) => Raise TypeError
  | _, _ => Raise OutOfModel
  end.

(** [calculate_pct_mismatch(df1_col, df2_col)] on two columns with the same
    index. *)
Definition calculate_pct_mismatch (df1_col df2_col : series)
    : result (list number) :=
  ar <- arithmetic_of (sdtype df1_col) (sdtype df2_col) ;;
  mapM (fun lr => pct_cell ar (fst lr) (snd lr))
       (combine (svalues df1_col) (svalues df2_col)).

(** [ser1 == ser2]: pandas refuses series that are not identically
    labelled; a null is equal to nothing. *)
Definition series_eq (ser1 ser2 : series) : result (list bool) :=
  if index_equals (sindex ser1) (sindex ser2)
  then Ok (map (fun lr => Np.array_equal (fst lr) (snd lr))
               (combine (svalues ser1) (svalues ser2)))
  else Raise ValueError.

(** [np.where(cond, 0, pct)] *)
Definition where_zero (cond : list bool) (pct : list number) : list number :=
  map (fun bp : bool * number => if fst bp then Fin 0%Q else snd bp)
      (combine cond pct).

(** [mismatch_df[name] = values] for an array of values: the lengths must
    agree, except that a frame without rows takes a fresh RangeIndex of the
    length of the values and fills its old columns with NaN. *)
Definition setitem_values (mt : mismatch_table) (name : string)
    (values : list number) : result mismatch_table :=
  match mt_index mt, values with
  | [], _ :: _ =>
      let n := length values in
      Ok (mk_mismatch_table (RangeIndex n)
            (fst (mt_left mt), repeat CNull n)
            (fst (mt_right mt), repeat CNull n)
            (Some (name, values)))
  | _, _ =>
      if length values =? length (mt_index mt)
      then Ok (mk_mismatch_table (mt_index mt) (mt_left mt) (mt_right mt)
                 (Some (name, values)))
      else Raise ValueError
  end.

(** [len(mismatch_idx) / len(df1) * 100] *)
Definition idx_mismatch_pct (n m : nat) : result Q :=
  if m =? 0 then Raise ZeroDivisionError
  else Ok (Qred (inject_Z (Z.of_nat n) / inject_Z (Z.of_nat m)
                 * inject_Z 100)).

(** The test that guards the relative-mismatch column, with Python's
    precedence: [A or (B and C)]. *)
Definition pct_condition (d1 d2 : dtype) : bool :=
  dtype_eqb d1 Int64 || (dtype_eqb d1 Float64 && dtype_eqb d1 d2).

Definition pcodes_columns : list string :=
  ["pcodes_power_poles"; "pcodes_buildings"; "pcodes_power_lines"]%string.

(** [df.c[0] = np.sort(df.c[0])] *)
Definition sort_first_cell (c : string) (df : frame) : result frame :=
  ser <- getattr df c ;;
  v <- series_get ser [SInt 0%Z] ;;
  v' <- Np.sort v ;;
  set_cell df c [SInt 0%Z] v'.

(** Lines 108-115. *)
Definition prenormalize (df1 df2 : frame) : result (frame * frame) :=
  df1 <- sort_first_cell "pcodes_power_poles" df1 ;;
  df2 <- sort_first_cell "pcodes_power_poles" df2 ;;
  df1 <- sort_first_cell "pcodes_buildings" df1 ;;
  df2 <- sort_first_cell "pcodes_buildings" df2 ;;
  df1 <- sort_first_cell "pcodes_power_lines" df1 ;;
  df2 <- sort_first_cell "pcodes_power_lines" df2 ;;
  Ok (df1, df2).

(** Lines 117-121, one side. *)
Definition drop_ignored (ignore_cols : list string) (df : frame) : frame :=
  match ignore_cols with
  | [] => df
  | _ =>
      if issubset String.eqb ignore_cols (column_names df)
      then drop ignore_cols df
      else df
  end.

(** Lines 123-127. *)
Definition compare_column_sets (res : CompareResult) (df1 df2 : frame)
    : CompareResult :=
  if negb (set_eqb String.eqb (column_names df1) (column_names df2))
  then
    set_only_columns (set_match res false)
      (Some (sorted String.leb
               (set_diff String.eqb (column_names df1) (column_names df2))))
      (Some (sorted String.leb
               (set_diff String.eqb (column_names df2) (column_names df1))))
  else res.

(** Lines 132-138 for one table: a [KeyError] is caught and leaves the
    table as it is. *)
Definition index_frame (index_cols : list string) (df : frame)
    : result frame :=
  match sort_values index_cols df with
  | Raise KeyError => Ok df
  | Raise e => Raise e
  | Ok d =>
      match set_index index_cols d with
      | Raise KeyError => Ok d
      | r => r
      end
  end.

Definition labels_where (m : list bool) (idx : list label) : list label :=
  map fst (filter (fun kb => snd kb) (combine idx m)).

(** [mask.any()] *)
Definition any (m : list bool) : bool := existsb (fun b => b) m.

(** [df[~df.index.duplicated(keep="first")]] *)
Definition keep_first (df : frame) : frame :=
  getitem_mask df (map negb (duplicated_first (index df))).

(** Lines 141-157. *)
Definition validate_indices (res : CompareResult) (df1 df2 : frame)
    : CompareResult * frame * frame :=
  let l_dup_indices := duplicated_all (index df1) in
  let r_dup_indices := duplicated_all (index df2) in
  let '(res, df1) :=
    if any l_dup_indices
    then
      (set_left_index_duplicates
         (set_match (set_left_duplicate res true) false)
         (Some (value_counts (labels_where l_dup_indices (index df1)))),
       keep_first df1)
    else (res, df1) in
  let '(res, df2) :=
    if any r_dup_indices
    then
      (set_right_index_duplicates
         (set_match (set_right_duplicate res true) false)
         (Some (value_counts (labels_where r_dup_indices (index df2)))),
       keep_first df2)
    else (res, df2) in
  (res, df1, df2).

(** Lines 129-157. *)
Definition index_tables (index_cols : list string) (res : CompareResult)
    (df1 df2 : frame) : result (CompareResult * frame * frame) :=
  match index_cols with
  | [] => Ok (res, df1, df2)
  | _ =>
      df1 <- index_frame index_cols df1 ;;
      df2 <- index_frame index_cols df2 ;;
      Ok (validate_indices res df1 df2)
  end.

(** Lines 159-182.  [None] is the early return at line 177; otherwise the
    two tables restricted to their common labels. *)
Definition reconcile_indices (res : CompareResult) (df1 df2 : frame)
    : result (CompareResult * option (frame * frame)) :=
  let res := set_index_counts res (len df1) (len df2) in
  if negb (index_equals (index df1) (index df2))
  then
    let res := set_index_match (set_match res false) false in
    let res :=
      set_only_indexes res
        (sorted label_leb (set_diff label_eqb (index df1) (index df2)))
        (sorted label_leb (set_diff label_eqb (index df2) (index df1))) in
    let common_ids := set_inter label_eqb (index df1) (index df2) in
    let res := set_common_index_count res (length common_ids) in
    match common_ids with
    | [] => Ok (res, None)
    | _ =>
        df1 <- loc df1 common_ids ;;
        df2 <- loc df2 common_ids ;;
        Ok (res, Some (df1, df2))
    end
  else
    Ok (set_common_index_count res (left_index_count res), Some (df1, df2)).

(** Lines 196-223: the body of the loop over the common columns. *)
Definition compare_column (df1 df2 : frame) (res : CompareResult)
    (col : string) : result CompareResult :=
  ser1 <- getitem df1 col ;;
  ser2 <- getitem df2 col ;;
  if negb (series_equals ser1 ser2)
  then
    mismatch_idx <- series_nonequal_index ser1 ser2 ;;
    left <- series_loc ser1 mismatch_idx ;;
    right <- series_loc ser2 mismatch_idx ;;
    let mismatch_df :=
      mk_mismatch_table mismatch_idx
        ((col ++ "_LEFT")%string, left) ((col ++ "_RIGHT")%string, right)
        None in
    pct <- idx_mismatch_pct (length mismatch_idx) (len df1) ;;
    mismatch_df <-
      (if pct_condition (sdtype ser1) (sdtype ser2)
       then
         cond <- series_eq ser1 ser2 ;;
         values <- calculate_pct_mismatch ser1 ser2 ;;
         setitem_values mismatch_df ("mismatch_pct_" ++ col)%string
           (where_zero cond values)
       else Ok mismatch_df) ;;
    Ok (set_column_results res
          (dict_set col
             (mk_ColumnResult
                (dtype_eqb (sdtype ser1) (sdtype ser2))
                (sdtype ser1) (sdtype ser2) pct (length mismatch_idx)
                mismatch_df)
             (column_results res)))
  else Ok res.

Fixpoint for_each {A S : Type} (body : S -> A -> result S) (l : list A)
    (s : S) : result S :=
  match l with
  | [] => Ok s
  | x :: xs => s' <- body s x ;; for_each body xs s'
  end.

(** Lines 184-225. *)
Definition compare_columns (res : CompareResult) (df1 df2 : frame)
    : result CompareResult :=
  let common_cols :=
    filter (fun col => mem String.eqb col (set_of String.eqb (column_names df2)))
           (column_names df1) in
  if negb (equals_on common_cols df1 df2)
     || negb (set_eqb String.eqb (column_names df1) (column_names df2))
  then
    let res := set_data_match (set_match res false) false in
    for_each (compare_column df1 df2) common_cols res
  else Ok res.

(** A loaded file: its rows are labelled 0, 1, ... *)
Record table : Type := mk_table {
  nrows : nat;
  tcolumns : list (string * column)
}.

Definition loaded (t : table) : frame :=
  mk_frame (RangeIndex (nrows t)) (tcolumns t).

(** Lines 100-157: everything up to the comparison of the indices. *)
Definition prepare (name : string) (t1 t2 : table)
    (index_cols ignore_cols : list string)
    : result (CompareResult * frame * frame) :=
  let res := set_file_name new_CompareResult name in
  ' (df1, df2) <- prenormalize (loaded t1) (loaded t2) ;;
  let df1 := drop_ignored ignore_cols df1 in
  let df2 := drop_ignored ignore_cols df2 in
  let res := compare_column_sets res df1 df2 in
  index_tables index_cols res df1 df2.

(** [compare_data(data_fpath_1, data_fpath_2, index_cols, ignore_cols)].
    The two files are given by the name of the first and by their contents
    as [load_file] returns them. *)
Definition compare_data (name : string) (t1 t2 : table)
    (index_cols ignore_cols : list string) : result CompareResult :=
  ' (res, df1, df2) <- prepare name t1 t2 index_cols ignore_cols ;;
  ' (res, aligned) <- reconcile_indices res df1 df2 ;;
  match aligned with
  | None => Ok res
  | Some (df1, df2) => compare_columns res df1 df2
  end.

(** ** The folder comparison of parquet_compare.py *)

Module Folders.

(** [s.endswith(suffix)] *)
Definition endswith (s suffix : string) : bool :=
  (String.length suffix <=? String.length s)
  && String.eqb
       (substring (String.length s - String.length suffix)
          (String.length suffix) s)
       suffix.

(** [s.replace(old, new)] for a non-empty [old]: the occurrences of [old]
    are replaced from left to right, and a replaced occurrence is skipped
    before the search goes on. *)
Fixpoint replace_from (old new : string) (skip : nat) (s : string) : string :=
  match s with
  | EmptyString => EmptyString
  | String c rest =>
      match skip with
      | S k => replace_from old new k rest
      | O =>
          if prefix old (String c rest)
          then new ++ replace_from old new (String.length old - 1) rest
          else String c (replace_from old new 0 rest)
      end
  end.

(** [s.replace("", new)]: [new] goes before every character and at the
    end. *)
Fixpoint between (new s : string) : string :=
  match s with
  | EmptyString => new
  | String c rest => new ++ String c (between new rest)
  end.

Definition replace (old new s : string) : string :=
  match old with
  | EmptyString => between new s
  | _ => replace_from old new 0 s
  end.

(** [os.path.join(a, b)] on POSIX. *)
Definition join (a b : string) : string :=
  if prefix "/" b then b
  else if String.eqb a "" || endswith a "/" then a ++ b
  else a ++ "/" ++ b.

(** Lines 23-28.  [walk] is what [os.walk(folder1)] yields: every directory
    with the names of its files. *)
Definition pairs_of (folder1 folder2 : string)
    (walk : list (string * list string)) : list (string * string) :=
  flat_map
    (fun rf =>
       map (fun file =>
              (join (fst rf) file, join (replace folder1 folder2 (fst rf)) file))
           (filter (fun file => endswith file ".parquet") (snd rf)))
    walk.

Section CompareFolders.
(** [os.path.exists] and [compare_files], which read the file system. *)
Variable path_exists : string -> bool.
Variable compare_files : string -> string -> bool.

(** Lines 32-38: the status written for one pair. *)
Definition status_of (file1 file2 : string) : string :=
  if path_exists file2
  then if compare_files file1 file2 then "Match" else "Not match"
  else "File not found".

(** Lines 32-39: one turn of the loop, [result[file1] = status]. *)
Definition record_pair (result : list (string * string))
    (p : string * string) : list (string * string) :=
  dict_set (fst p) (status_of (fst p) (snd p)) result.

(** Lines 30-39. *)
Definition compare_pairs (files : list (string * string))
    : list (string * string) :=
  fold_left record_pair files [].

(** [compare_folders(folder1, folder2)]: the dictionary it returns. *)
Definition compare_folders (folder1 folder2 : string)
    (walk : list (string * list string)) : list (string * string) :=
  compare_pairs (pairs_of folder1 folder2 walk).

(** [len([v for v in result.values() if v == status])] *)
Definition count_status (status : string) (result : list (string * string))
    : nat :=
  length (filter (fun kv => String.eqb (snd kv) status) result).
End CompareFolders.

(** [old] occurs in [s]. *)
Definition occurs (old s : string) : Prop :=
  exists a b, s = (a ++ old ++ b)%string.

End Folders.

(** ** Notions used to state the properties *)

(** The cell of column [c] in row number [i]. *)
Definition cell_at (df : frame) (c : string) (i : nat) : option cell :=
  match lookup_column c (columns df) with
  | Some col => Some (nth i (cells col) CNull)
  | None => None
  end.

(** Lines 108-115 as they act on one of the two tables. *)
Definition prenormalize_side (df : frame) : result frame :=
  df <- sort_first_cell "pcodes_power_poles" df ;;
  df <- sort_first_cell "pcodes_buildings" df ;;
  sort_first_cell "pcodes_power_lines" df.

(** What pre-normalization does to a loaded table [t], giving [d]: the
    arrays in the first row of the three columns are put in ascending order,
    everything else stays. *)
Definition first_row_sorted (t : table) (d : frame) : Prop :=
  index d = index (loaded t)
  /\ column_names d = column_names (loaded t)
  /\ (forall c, In c pcodes_columns ->
        exists a a',
          cell_at (loaded t) c 0 = Some (CArr a)
          /\ cell_at d c 0 = Some (CArr a')
          /\ Sorted Z.le a' /\ Permutation a a')
  /\ (forall c i, ~ (In c pcodes_columns /\ i = 0) ->
        cell_at d c i = cell_at (loaded t) c i).

(** The frame that leaves the validation of one side (lines 141-157). *)
Definition validated (k : frame) : frame :=
  if any (duplicated_all (index k)) then keep_first k else k.

(** The order that a boolean comparison decides. *)
Definition leb_rel {A : Type} (leb : A -> A -> bool) (x y : A) : Prop :=
  leb x y = true.


(** Row [p] carries the first occurrence of its label. *)
Definition first_occurrence (idx : list label) (p : nat) : bool :=
  match index_of label_eqb (nth p idx []) idx with
  | Some q => q =? p
  | None => false
  end.


(** The rows that carry the first occurrence of their key. *)
Definition first_rows (idx : list label) : list nat :=
  filter (first_occurrence idx) (seq 0 (length idx)).



(** Two columns as the comparison hands them to the comparator: the same
    labels in the same order, no label twice, one value per label. *)
Definition aligned (s1 s2 : series) : Prop :=
  sindex s1 = sindex s2 /\ NoDup (sindex s1)
  /\ length (svalues s1) = length (sindex s1)
  /\ length (svalues s2) = length (sindex s2).


(** The values of an int64 column. *)
Definition in_int64 (z : Z) : Prop := (- 2 ^ 63 <= z < 2 ^ 63)%Z.

(** The relative mismatch of one pair of int64 values, in closed form. *)
Definition relative_mismatch (l r : Z) : number :=
  if (l =? r)%Z then Fin 0%Q
  else if (l =? 0)%Z then Inf
  else Fin (Qred (inject_Z (abs_diff (Wrapping 64) l r) / inject_Z l
                  * inject_Z 100)).

(** A column of integers. *)
Definition int_series (idx : list label) (d : dtype) (l : list Z) : series :=
  mk_series idx d (map (fun z => CVal (SInt z)) l).

(** The table without the columns named in [cs]. *)
Definition without (cs : list string) (t : table) : table :=
  mk_table (nrows t)
    (filter (fun nc => negb (mem String.eqb (fst nc) cs)) (tcolumns t)).

(** What the ignore filter of lines 117-121 leaves of one table: the table
    without the ignored columns when it has them all, the table itself
    otherwise. *)
Definition ignoring (ignore_cols : list string) (t : table) : table :=
  if issubset String.eqb ignore_cols (map fst (tcolumns t))
  then without ignore_cols t
  else t.

(** The column with the array [a] in its first row. *)
Definition first_array (a : list Z) (col : column) : column :=
  mk_column (cdtype col) (set_nth 0 (CArr a) (cells col)).

(** The table with the array [a] in the first row of column [c]. *)
Definition with_first_array (c : string) (a : list Z) (t : table) : table :=
  mk_table (nrows t) (update_column c (first_array a) (tcolumns t)).

(** ** Example tables *)

Module Examples.
Open Scope string_scope.
Open Scope Z_scope.

Definition int64 (l : list Z) : column :=
  mk_column Int64 (map (fun z => CVal (SInt z)) l).

Definition float64 (l : list Z) : column :=
  mk_column Float64 (map (fun z => CVal (SInt z)) l).

Definition text (l : list string) : column :=
  mk_column Object (map (fun s => CVal (SStr s)) l).

Definition arrays (l : list (list Z)) : column :=
  mk_column Object (map CArr l).

(** The three array-valued columns, with the same cells in each. *)
Definition pcodes (l : list (list Z)) : list (string * column) :=
  [("pcodes_power_poles", arrays l); ("pcodes_buildings", arrays l);
   ("pcodes_power_lines", arrays l)].

(** The keyed scenario of the specification. *)
Definition scenario_left : table :=
  mk_table 2 [("id", int64 [1; 2]); ("val", int64 [10; 20])].

Definition scenario_right : table :=
  mk_table 3 [("id", int64 [1; 2; 3]); ("val", int64 [10; 99; 5])].

(** The same scenario in tables that also carry the three array columns. *)
Definition scenario_left_pcodes : table :=
  mk_table 2 (tcolumns scenario_left ++ pcodes [[2; 1]; [3; 4]]).

Definition scenario_right_pcodes : table :=
  mk_table 3 (tcolumns scenario_right ++ pcodes [[1; 2]; [3; 4]; [7]]).

(** One numeric column whose declared type differs between the sides and
    whose only value differs too. *)
Definition int_side : table := mk_table 1 (("val", int64 [10]) :: pcodes [[1]]).
Definition float_side : table :=
  mk_table 1 (("val", float64 [20]) :: pcodes [[1]]).


(** Two tables that differ only in the order inside the arrays: in the first
    row and in the second row. *)
Definition arrays_left : table := mk_table 2 (pcodes [[2; 1]; [3; 4]]).
Definition arrays_right : table := mk_table 2 (pcodes [[1; 2]; [4; 3]]).

(** A table in which the key "A" occurs twice. *)
Definition duplicate_key : table :=
  mk_table 3 (("id", text ["A"; "A"; "B"]) :: ("val", int64 [1; 1; 2])
              :: pcodes [[1]; [1]; [2]]).

(** Two keyed tables without a common key. *)
Definition key_one : table := mk_table 1 (("id", int64 [1]) :: pcodes [[1]]).
Definition key_two : table := mk_table 1 (("id", int64 [2]) :: pcodes [[1]]).

(** Only the left table has a column named debug. *)
Definition with_debug : table :=
  mk_table 1 (("debug", int64 [1]) :: pcodes [[1]]).
Definition without_debug : table := mk_table 1 (pcodes [[1]]).

(** A column that is null on the left and holds a value on the right. *)
Definition all_null : series := mk_series [[SInt 0]] Object [CNull].
Definition one_value : series := mk_series [[SInt 0]] Int64 [CVal (SInt 1)].

(** Two tables whose val columns are those two columns. *)
Definition null_side : table :=
  mk_table 1 (("val", mk_column Object [CNull]) :: pcodes [[1]]).
Definition value_side : table := mk_table 1 (("val", int64 [1]) :: pcodes [[1]]).

(** Two aligned columns with a null, an equal pair and two arrays in
    different order. *)
Definition mixed_left : series :=
  mk_series [[SInt 0]; [SInt 1]; [SInt 2]] Object
    [CNull; CVal (SInt 1); CArr [1; 2]].
Definition mixed_right : series :=
  mk_series [[SInt 0]; [SInt 1]; [SInt 2]] Object
    [CVal (SInt 5); CVal (SInt 1); CArr [2; 1]].

End Examples.

(** A step of a computation that returned: its first action returned too. *)
Ltac inv_bind H :=
  match type of H with
  | bind ?m _ = Ok _ =>
      let E := fresh "E" in
      destruct m eqn:E; simpl in H; [| discriminate H]
  end.

(** ** Facts about the Python and pandas primitives *)

Section EqbFacts.
Context {A : Type}.
Variable eqb : A -> A -> bool.
Hypothesis eqb_eq : forall x y, eqb x y = true <-> x = y.

Lemma eqb_refl' : forall x, eqb x x = true.
Proof. intro x. apply eqb_eq. reflexivity. Qed.

Lemma eqb_false_iff : forall x y, eqb x y = false <-> x <> y.
Proof.
  intros x y. destruct (eqb x y) eqn:E.
  - apply eqb_eq in E. split; [discriminate | congruence].
  - split; [| reflexivity]. intros _ H. apply eqb_eq in H. congruence.
Qed.

Lemma list_eqb_eq : forall l1 l2, list_eqb eqb l1 l2 = true <-> l1 = l2.
Proof.
  induction l1 as [| x xs IH]; destruct l2 as [| y ys]; simpl;
    try (split; [discriminate | discriminate]); [tauto |].
  rewrite andb_true_iff, eqb_eq, IH. split.
  - intros [-> ->]. reflexivity.
  - intros H. inversion H. auto.
Qed.

Lemma mem_In : forall x l, mem eqb x l = true <-> In x l.
Proof.
  intros x l. unfold mem. rewrite existsb_exists. split.
  - intros [y [Hy E]]. apply eqb_eq in E. subst. exact Hy.
  - intros H. exists x. split; [exact H | apply eqb_refl'].
Qed.

Lemma mem_false : forall x l, mem eqb x l = false <-> ~ In x l.
Proof.
  intros x l. rewrite <- mem_In. destruct (mem eqb x l); split; congruence.
Qed.

Lemma set_of_In : forall x l, In x (set_of eqb l) <-> In x l.
Proof.
  intros x l. induction l as [| y ys IH]; simpl; [tauto |].
  rewrite filter_In, IH, negb_true_iff, eqb_false_iff.
  destruct (eqb y x) eqn:E.
  - apply eqb_eq in E. subst. tauto.
  - apply eqb_false_iff in E. tauto.
Qed.

Lemma set_of_NoDup : forall l, NoDup (set_of eqb l).
Proof.
  induction l as [| y ys IH]; simpl; constructor.
  - rewrite filter_In, negb_true_iff, eqb_false_iff. tauto.
  - apply NoDup_filter. exact IH.
Qed.

Lemma set_of_NoDup_id : forall l, NoDup l -> set_of eqb l = l.
Proof.
  induction l as [| y ys IH]; intros H; simpl; [reflexivity |].
  inversion H as [| ? ? Hnin Hnd]; subst. rewrite (IH Hnd). f_equal.
  apply forallb_filter_id. apply forallb_forall. intros z Hz.
  apply negb_true_iff, eqb_false_iff. intros ->. contradiction.
Qed.

Lemma set_diff_In : forall x a b,
    In x (set_diff eqb a b) <-> In x a /\ ~ In x b.
Proof.
  intros. unfold set_diff.
  rewrite filter_In, set_of_In, negb_true_iff, mem_false. tauto.
Qed.

Lemma set_inter_In : forall x a b,
    In x (set_inter eqb a b) <-> In x a /\ In x b.
Proof.
  intros. unfold set_inter. rewrite filter_In, set_of_In, mem_In. tauto.
Qed.

Lemma set_inter_NoDup : forall a b, NoDup (set_inter eqb a b).
Proof. intros. apply NoDup_filter, set_of_NoDup. Qed.

Lemma issubset_incl : forall a b, issubset eqb a b = true <-> incl a b.
Proof.
  intros a b. unfold issubset, incl. rewrite forallb_forall.
  split; intros H x Hx; apply mem_In; auto.
Qed.

Lemma issubset_refl : forall a, issubset eqb a a = true.
Proof. intro a. apply issubset_incl, incl_refl. Qed.

Lemma index_of_Some : forall x l i d,
    index_of eqb x l = Some i -> i < length l /\ nth i l d = x.
Proof.
  intros x l. induction l as [| y ys IH]; simpl; intros i d H;
    [discriminate |].
  destruct (eqb x y) eqn:E.
  - inversion H; subst. apply eqb_eq in E. subst. split; [lia | reflexivity].
  - destruct (index_of eqb x ys) as [j |] eqn:Ej; simpl in H; [| discriminate].
    inversion H; subst. destruct (IH j d eq_refl) as [Hlt Hn].
    split; [lia | exact Hn].
Qed.

Lemma index_of_In : forall x l, In x l -> exists i, index_of eqb x l = Some i.
Proof.
  intros x l. induction l as [| y ys IH]; simpl; intros H; [contradiction |].
  destruct (eqb x y) eqn:E; [eauto |].
  apply eqb_false_iff in E. destruct H as [H | H]; [congruence |].
  destruct (IH H) as [i Hi]. rewrite Hi. simpl. eauto.
Qed.

Lemma index_of_None : forall x l, index_of eqb x l = None -> ~ In x l.
Proof.
  intros x l H Hin. destruct (index_of_In x l Hin) as [i Hi]. congruence.
Qed.


Lemma count_pos_In : forall x l, 0 < count eqb x l <-> In x l.
Proof.
  intros x l. unfold count. induction l as [| y ys IH]; simpl; [split; [lia | tauto] |].
  destruct (eqb x y) eqn:E; simpl.
  - apply eqb_eq in E. subst. split; [auto | lia].
  - apply eqb_false_iff in E. rewrite IH. split; [auto | intros [H | H]; congruence].
Qed.
End EqbFacts.

Lemma scalar_eqb_eq : forall a b, scalar_eqb a b = true <-> a = b.
Proof.
  intros [x | x] [y | y]; simpl; try (split; discriminate).
  - rewrite Z.eqb_eq. split; congruence.
  - rewrite String.eqb_eq. split; congruence.
Qed.

Lemma label_eqb_eq : forall a b, label_eqb a b = true <-> a = b.
Proof. apply list_eqb_eq, scalar_eqb_eq. Qed.

Lemma dtype_eqb_eq : forall a b, dtype_eqb a b = true <-> a = b.
Proof. intros [] []; simpl; split; congruence. Qed.

Lemma array_equivalent_refl : forall c, array_equivalent c c = true.
Proof.
  intros [| v | a]; simpl; [reflexivity | apply scalar_eqb_eq; reflexivity |].
  apply (list_eqb_eq Z.eqb Z.eqb_eq). reflexivity.
Qed.

Lemma list_eqb_refl {A : Type} (eqb : A -> A -> bool) :
  (forall x, eqb x x = true) -> forall l, list_eqb eqb l l = true.
Proof.
  intros H l. induction l as [| x xs IH]; simpl; [reflexivity |].
  rewrite H, IH. reflexivity.
Qed.

Lemma index_equals_eq : forall i1 i2, index_equals i1 i2 = true <-> i1 = i2.
Proof. apply list_eqb_eq, label_eqb_eq. Qed.

(** The stable sort returns a sorted rearrangement of its input. *)
Section SortFacts.
Context {A : Type}.
Variable leb : A -> A -> bool.
Hypothesis leb_total : forall x y, leb x y = true \/ leb y x = true.

Lemma insert_Permutation : forall x l, Permutation (x :: l) (insert leb x l).
Proof.
  intros x l. induction l as [| y ys IH]; simpl; [reflexivity |].
  destruct (leb x y); [reflexivity |].
  rewrite perm_swap. constructor. exact IH.
Qed.

Lemma sorted_Permutation : forall l, Permutation l (sorted leb l).
Proof.
  induction l as [| x xs IH]; simpl; [constructor |].
  rewrite <- insert_Permutation. constructor. exact IH.
Qed.

Lemma insert_Sorted : forall x l, Sorted (leb_rel leb) l -> Sorted (leb_rel leb) (insert leb x l).
Proof.
  intros x l. induction l as [| y ys IH]; simpl; intros H.
  - repeat constructor.
  - destruct (leb x y) eqn:E.
    + constructor; [exact H | constructor; exact E].
    + inversion H as [| ? ? Hs Hh]; subst. constructor; [apply IH; exact Hs |].
      assert (Hyx : leb_rel leb y x) by (destruct (leb_total x y); [congruence | assumption]).
      destruct ys as [| z zs]; simpl; [constructor; exact Hyx |].
      destruct (leb x z); constructor; [exact Hyx |].
      inversion Hh; assumption.
Qed.

Lemma sorted_Sorted : forall l, Sorted (leb_rel leb) (sorted leb l).
Proof.
  induction l as [| x xs IH]; simpl; [constructor |].
  apply insert_Sorted. exact IH.
Qed.

Lemma sorted_length : forall l, length (sorted leb l) = length l.
Proof.
  intro l. symmetry. apply Permutation_length, sorted_Permutation.
Qed.

Lemma sorted_In : forall x l, In x (sorted leb l) <-> In x l.
Proof.
  intros x l. split; apply Permutation_in;
    [symmetry |]; apply sorted_Permutation.
Qed.
End SortFacts.

Lemma Zleb_total : forall x y : Z, (x <=? y)%Z = true \/ (y <=? x)%Z = true.
Proof. intros x y. rewrite !Z.leb_le. lia. Qed.

(** Two ascending lists of integers with the same elements are equal. *)
Lemma Sorted_Permutation_eq : forall l1 l2 : list Z,
    Sorted (fun x y => (x <=? y)%Z = true) l1 ->
    Sorted (fun x y => (x <=? y)%Z = true) l2 ->
    Permutation l1 l2 -> l1 = l2.
Proof.
  assert (Htr : Relations_1.Transitive (fun x y : Z => (x <=? y)%Z = true)).
  { intros x y z. rewrite !Z.leb_le. lia. }
  induction l1 as [| a l1 IH]; intros l2 S1 S2 P.
  - apply Permutation_nil in P. subst. reflexivity.
  - destruct l2 as [| b l2].
    + symmetry in P. apply Permutation_nil in P. discriminate.
    + apply Sorted_StronglySorted in S1, S2; try exact Htr.
      inversion S1 as [| ? ? S1' F1]; inversion S2 as [| ? ? S2' F2]; subst.
      assert (a = b).
      { assert (Ha : In a (b :: l2)) by (eapply Permutation_in; [exact P | left; reflexivity]).
        assert (Hb : In b (a :: l1)) by (eapply Permutation_in; [symmetry; exact P | left; reflexivity]).
        rewrite Forall_forall in F1, F2.
        destruct Ha as [Ha | Ha]; [congruence |].
        destruct Hb as [Hb | Hb]; [congruence |].
        specialize (F1 _ Hb). specialize (F2 _ Ha).
        apply Z.leb_le in F1, F2. lia. }
      subst. f_equal. apply IH.
      * apply StronglySorted_Sorted. exact S1'.
      * apply StronglySorted_Sorted. exact S2'.
      * eapply Permutation_cons_inv. exact P.
Qed.

Lemma np_sort_order_insensitive : forall a b : list Z,
    Permutation a b -> sorted Z.leb a = sorted Z.leb b.
Proof.
  intros a b P. apply Sorted_Permutation_eq.
  - apply sorted_Sorted, Zleb_total.
  - apply sorted_Sorted, Zleb_total.
  - rewrite <- (sorted_Permutation Z.leb a), <- (sorted_Permutation Z.leb b).
    exact P.
Qed.

(** ** The pre-normalization step *)

Lemma update_column_names : forall c f cols,
    map fst (update_column c f cols) = map fst cols.
Proof.
  intros c f cols. induction cols as [| [n col] rest IH]; simpl; [reflexivity |].
  destruct (String.eqb c n); simpl; [reflexivity | rewrite IH; reflexivity].
Qed.

Lemma lookup_update_same : forall c f cols col,
    lookup_column c cols = Some col ->
    lookup_column c (update_column c f cols) = Some (f col).
Proof.
  intros c f cols col. induction cols as [| [n x] rest IH]; simpl; [discriminate |].
  destruct (String.eqb c n) eqn:E; simpl; rewrite E.
  - intros H. inversion H. reflexivity.
  - exact IH.
Qed.

Lemma lookup_update_other : forall c c' f cols,
    c' <> c ->
    lookup_column c' (update_column c f cols) = lookup_column c' cols.
Proof.
  intros c c' f cols Hne. induction cols as [| [n x] rest IH]; simpl; [reflexivity |].
  destruct (String.eqb c n) eqn:E; simpl.
  - apply String.eqb_eq in E. subst n.
    destruct (String.eqb c' c) eqn:E'; [apply String.eqb_eq in E'; congruence | reflexivity].
  - rewrite IH. reflexivity.
Qed.

Lemma lookup_column_In : forall c cols col,
    lookup_column c cols = Some col -> In c (map fst cols).
Proof.
  intros c cols col. induction cols as [| [n x] rest IH]; simpl; [discriminate |].
  destruct (String.eqb c n) eqn:E.
  - apply String.eqb_eq in E. auto.
  - auto.
Qed.

Lemma lookup_column_Some : forall c cols,
    In c (map fst cols) -> exists col, lookup_column c cols = Some col.
Proof.
  intros c cols. induction cols as [| [n x] rest IH]; simpl; [contradiction |].
  destruct (String.eqb c n) eqn:E; [eauto |].
  apply String.eqb_neq in E. intros [H | H]; [congruence | auto].
Qed.

Lemma nth_set_nth {A : Type} : forall (l : list A) i j v d,
    nth j (set_nth i v l) d =
    if (i =? j) && (j <? length l) then v else nth j l d.
Proof.
  induction l as [| x xs IH]; intros i j v d.
  - destruct i, j; simpl; rewrite ?andb_false_r; reflexivity.
  - destruct i as [| i]; destruct j as [| j]; simpl; try reflexivity.
    rewrite IH. reflexivity.
Qed.


(** What one of the six assignments needs and what it does. *)
Lemma sort_first_cell_Ok : forall c df df',
    sort_first_cell c df = Ok df' ->
    exists col i a,
      lookup_column c (columns df) = Some col
      /\ index_of label_eqb [SInt 0%Z] (index df) = Some i
      /\ nth i (cells col) CNull = CArr a
      /\ df' = mk_frame (index df)
                 (update_column c
                    (fun col => mk_column (cdtype col)
                       (set_nth i (CArr (sorted Z.leb a)) (cells col)))
                    (columns df)).
Proof.
  intros c df df' H. unfold sort_first_cell, getattr in H.
  destruct (lookup_column c (columns df)) as [col |] eqn:Ec; simpl in H;
    [| discriminate].
  unfold series_get in H. simpl in H.
  destruct (index_of label_eqb [SInt 0%Z] (index df)) as [i |] eqn:Ei;
    simpl in H; [| discriminate].
  destruct (nth i (cells col) CNull) as [| v | a] eqn:En; simpl in H;
    try discriminate.
  unfold set_cell in H. rewrite Ei in H. inversion H; subst.
  exists col, i, a. auto.
Qed.

Lemma sort_first_cell_inv : forall c df df',
    sort_first_cell c df = Ok df' ->
    In c (column_names df) /\ index df <> []
    /\ column_names df' = column_names df /\ index df' = index df.
Proof.
  intros c df df' H.
  destruct (sort_first_cell_Ok _ _ _ H) as (col & i & a & Hc & Hi & _ & ->).
  unfold column_names. simpl. rewrite update_column_names.
  repeat split.
  - eapply lookup_column_In. exact Hc.
  - intros E. rewrite E in Hi. discriminate.
Qed.

Lemma prenormalize_sides : forall a b a' b',
    prenormalize a b = Ok (a', b') ->
    prenormalize_side a = Ok a' /\ prenormalize_side b = Ok b'.
Proof.
  intros a b a' b' H. unfold prenormalize in H.
  repeat inv_bind H. inversion H; subst. clear H.
  unfold prenormalize_side. split.
  - rewrite E. simpl. rewrite E1. simpl. exact E3.
  - rewrite E0. simpl. rewrite E2. simpl. exact E4.
Qed.

Lemma prenormalize_side_inv : forall df df',
    prenormalize_side df = Ok df' ->
    (forall c, In c pcodes_columns -> In c (column_names df))
    /\ index df <> []
    /\ column_names df' = column_names df /\ index df' = index df.
Proof.
  intros df df' H. unfold prenormalize_side in H. repeat inv_bind H.
  apply sort_first_cell_inv in E, E0, H.
  destruct E as (I1 & N1 & C1 & X1), E0 as (I2 & N2 & C2 & X2),
    H as (I3 & N3 & C3 & X3).
  repeat split.
  - intros c Hc. simpl in Hc.
    destruct Hc as [<- | [<- | [<- | []]]]; congruence.
  - exact N1.
  - congruence.
  - congruence.
Qed.

Lemma loaded_index_nil : forall t, nrows t = 0 -> index (loaded t) = [].
Proof. intros t H. unfold loaded. simpl. rewrite H. reflexivity. Qed.

Lemma prepare_raises : forall name t1 t2 ic ig e,
    prenormalize (loaded t1) (loaded t2) = Raise e ->
    compare_data name t1 t2 ic ig = Raise e.
Proof.
  intros name t1 t2 ic ig e H. unfold compare_data, prepare.
  rewrite H. reflexivity.
Qed.

(** C10.  A pair of loaded tables in which one table lacks one of the columns
    pcodes_power_poles, pcodes_buildings, pcodes_power_lines, or has no row,
    makes the pre-normalization step raise; [compare_data] raises the same
    exception and returns no report, whatever the key and ignore columns. *)
Theorem compare_data_requires_pcodes_columns :
  forall name t1 t2 index_cols ignore_cols,
    (exists c, In c pcodes_columns
               /\ (~ In c (map fst (tcolumns t1))
                   \/ ~ In c (map fst (tcolumns t2))))
    \/ nrows t1 = 0 \/ nrows t2 = 0 ->
    exists e,
      prenormalize (loaded t1) (loaded t2) = Raise e
      /\ compare_data name t1 t2 index_cols ignore_cols = Raise e.
Proof.
  intros name t1 t2 ic ig Hpre.
  destruct (prenormalize (loaded t1) (loaded t2)) as [[d1 d2] | e] eqn:E.
  - exfalso. apply prenormalize_sides in E. destruct E as [E1 E2].
    apply prenormalize_side_inv in E1, E2.
    destruct E1 as (I1 & N1 & _), E2 as (I2 & N2 & _).
    destruct Hpre as [(c & Hc & [Hn | Hn]) | [Hz | Hz]].
    + apply Hn. apply (I1 c Hc).
    + apply Hn. apply (I2 c Hc).
    + apply N1, loaded_index_nil, Hz.
    + apply N2, loaded_index_nil, Hz.
  - exists e. split; [reflexivity | apply prepare_raises; exact E].
Qed.

Lemma compare_data_requires_pcodes_columns_witness :
  exists e,
    prenormalize (loaded Examples.scenario_left)
                 (loaded Examples.scenario_right) = Raise e
    /\ compare_data "left.parquet" Examples.scenario_left
         Examples.scenario_right ["id"%string] [] = Raise e.
Proof.
  apply compare_data_requires_pcodes_columns.
  left. exists "pcodes_power_poles"%string. split.
  - simpl. auto.
  - left. simpl. intros [H | [H | []]]; discriminate H.
Defined.

Lemma RangeIndex_first : forall n,
    n <> 0 -> index_of label_eqb [SInt 0%Z] (RangeIndex n) = Some 0.
Proof. intros [| n] H; [congruence | reflexivity]. Qed.

Lemma nth_not_default {A : Type} : forall (l : list A) i d,
    nth i l d <> d -> i < length l.
Proof.
  intros l i d H. destruct (Nat.lt_ge_cases i (length l)) as [Hlt | Hge];
    [exact Hlt |].
  exfalso. apply H. apply nth_overflow. exact Hge.
Qed.

(** One assignment changes one cell: row [i] of column [c]. *)
Lemma sort_first_cell_cells : forall c df df' i,
    sort_first_cell c df = Ok df' ->
    index_of label_eqb [SInt 0%Z] (index df) = Some i ->
    (exists a, cell_at df c i = Some (CArr a)
               /\ cell_at df' c i = Some (CArr (sorted Z.leb a)))
    /\ (forall c' j, ~ (c' = c /\ j = i) -> cell_at df' c' j = cell_at df c' j).
Proof.
  intros c df df' i H Hi.
  destruct (sort_first_cell_Ok _ _ _ H) as (col & i' & a & Hc & Hi' & Hn & ->).
  rewrite Hi in Hi'. inversion Hi'; subst i'. clear Hi'.
  assert (Hlt : i < length (cells col)).
  { apply (nth_not_default _ _ CNull). rewrite Hn. discriminate. }
  unfold cell_at. simpl. split.
  - exists a. rewrite Hc. rewrite (lookup_update_same _ _ _ _ Hc). simpl.
    rewrite nth_set_nth, Nat.eqb_refl. apply Nat.ltb_lt in Hlt. rewrite Hlt.
    simpl. rewrite Hn. auto.
  - intros c' j Hne. destruct (String.eqb c' c) eqn:E.
    + apply String.eqb_eq in E. subst c'.
      rewrite Hc, (lookup_update_same _ _ _ _ Hc). simpl.
      rewrite nth_set_nth. destruct (i =? j) eqn:Eij; [| reflexivity].
      apply Nat.eqb_eq in Eij. subst j. exfalso. apply Hne. auto.
    + apply String.eqb_neq in E. rewrite lookup_update_other by exact E.
      reflexivity.
Qed.

Lemma prenormalize_side_first_row : forall t d,
    prenormalize_side (loaded t) = Ok d -> first_row_sorted t d.
Proof.
  intros t d H.
  destruct (prenormalize_side_inv _ _ H) as (_ & Hne & Hnames & Hidx).
  unfold prenormalize_side in H. repeat inv_bind H.
  rename a into d1, a0 into d2.
  assert (Hn : nrows t <> 0).
  { intros Hz. apply Hne. apply loaded_index_nil. exact Hz. }
  pose proof (sort_first_cell_inv _ _ _ E) as (_ & _ & _ & X1).
  pose proof (sort_first_cell_inv _ _ _ E0) as (_ & _ & _ & X2).
  assert (I0 : index_of label_eqb [SInt 0%Z] (index (loaded t)) = Some 0)
    by (apply RangeIndex_first; exact Hn).
  assert (I1 : index_of label_eqb [SInt 0%Z] (index d1) = Some 0)
    by (rewrite X1; exact I0).
  assert (I2 : index_of label_eqb [SInt 0%Z] (index d2) = Some 0)
    by (rewrite X2, X1; exact I0).
  destruct (sort_first_cell_cells _ _ _ _ E I0) as ((a1 & P0 & P1) & F1).
  destruct (sort_first_cell_cells _ _ _ _ E0 I1) as ((a2 & B0 & B1) & F2).
  destruct (sort_first_cell_cells _ _ _ _ H I2) as ((a3 & L0 & L1) & F3).
  assert (Hsorted : forall a, Sorted Z.le (sorted Z.leb a)
                              /\ Permutation a (sorted Z.leb a)).
  { intro a. split; [| apply sorted_Permutation].
    pose proof (sorted_Sorted Z.leb Zleb_total a) as S.
    induction S as [| x l S IH Hd]; constructor; [exact IH |].
    destruct Hd as [| y l' Hy]; constructor. apply Z.leb_le. exact Hy. }
  unfold first_row_sorted. repeat split; try assumption.
  - intros c Hc. simpl in Hc. destruct Hc as [<- | [<- | [<- | []]]].
    + exists a1, (sorted Z.leb a1). split; [exact P0 |]. split; [| apply Hsorted].
      rewrite F3, F2 by (intros [Hx _]; discriminate Hx). exact P1.
    + exists a2, (sorted Z.leb a2). split; [| split; [| apply Hsorted]].
      * rewrite <- F1 by (intros [Hx _]; discriminate Hx). exact B0.
      * rewrite F3 by (intros [Hx _]; discriminate Hx). exact B1.
    + exists a3, (sorted Z.leb a3). split; [| split; [| apply Hsorted]].
      * rewrite <- F1, <- F2 by (intros [Hx _]; discriminate Hx). exact L0.
      * exact L1.
  - intros c i Hno.
    rewrite F3, F2, F1; [reflexivity | | |];
      intros [-> ->]; apply Hno; simpl; auto.
Qed.

Lemma sort_first_cell_succeeds : forall c df i a,
    index_of label_eqb [SInt 0%Z] (index df) = Some i ->
    cell_at df c i = Some (CArr a) ->
    exists df', sort_first_cell c df = Ok df'.
Proof.
  intros c df i a Hi Hc. unfold cell_at in Hc.
  destruct (lookup_column c (columns df)) as [col |] eqn:E; [| discriminate].
  inversion Hc as [Hn]. unfold sort_first_cell, getattr. rewrite E. simpl.
  unfold series_get. simpl. rewrite Hi. simpl. rewrite Hn. simpl.
  unfold set_cell. rewrite Hi. eexists. reflexivity.
Qed.

(** Pre-normalization succeeds on a loaded table exactly when the table has
    a row and holds an array in the first row of each of the three columns. *)
Lemma prenormalize_side_succeeds : forall t,
    (exists p, prenormalize_side (loaded t) = Ok p)
    <-> nrows t <> 0
        /\ forall c, In c pcodes_columns ->
             exists a, cell_at (loaded t) c 0 = Some (CArr a).
Proof.
  intro t. split.
  - intros [p H]. split.
    + destruct (prenormalize_side_inv _ _ H) as (_ & Hne & _).
      intro Hz. apply Hne, loaded_index_nil, Hz.
    + intros c Hc. destruct (prenormalize_side_first_row _ _ H) as (_ & _ & F & _).
      destruct (F c Hc) as (a & _ & Ha & _). exists a. exact Ha.
  - intros [Hn F].
    assert (I0 : index_of label_eqb [SInt 0%Z] (index (loaded t)) = Some 0)
      by (apply RangeIndex_first; exact Hn).
    destruct (F "pcodes_power_poles"%string ltac:(simpl; auto)) as [a1 A1].
    destruct (F "pcodes_buildings"%string ltac:(simpl; auto)) as [a2 A2].
    destruct (F "pcodes_power_lines"%string ltac:(simpl; auto)) as [a3 A3].
    destruct (sort_first_cell_succeeds _ _ _ _ I0 A1) as [d1 S1].
    destruct (sort_first_cell_cells _ _ _ _ S1 I0) as (_ & F1).
    pose proof (sort_first_cell_inv _ _ _ S1) as (_ & _ & _ & X1).
    assert (I1 : index_of label_eqb [SInt 0%Z] (index d1) = Some 0)
      by (rewrite X1; exact I0).
    rewrite <- F1 in A2, A3 by (intros [Hx _]; discriminate Hx).
    destruct (sort_first_cell_succeeds _ _ _ _ I1 A2) as [d2 S2].
    destruct (sort_first_cell_cells _ _ _ _ S2 I1) as (_ & F2).
    pose proof (sort_first_cell_inv _ _ _ S2) as (_ & _ & _ & X2).
    assert (I2 : index_of label_eqb [SInt 0%Z] (index d2) = Some 0)
      by (rewrite X2; exact I1).
    rewrite <- F2 in A3 by (intros [Hx _]; discriminate Hx).
    destruct (sort_first_cell_succeeds _ _ _ _ I2 A3) as [d3 S3].
    exists d3. unfold prenormalize_side. rewrite S1. simpl. rewrite S2.
    simpl. exact S3.
Qed.

(** C5 (amended).  Before any comparison, in both tables and for each of the
    columns pcodes_power_poles, pcodes_buildings and pcodes_power_lines, the
    array in the first row (label 0) is replaced by its ascending
    rearrangement; every other cell, the index and the column names stay as
    loaded.  Two arrays that differ in order only are sorted to the same
    array, so an order difference in the first row cannot register. *)
Theorem prenormalize_sorts_first_row_only :
  forall t1 t2 d1 d2,
    prenormalize (loaded t1) (loaded t2) = Ok (d1, d2) ->
    first_row_sorted t1 d1 /\ first_row_sorted t2 d2
    /\ (forall a b, Permutation a b -> Np.sort (CArr a) = Np.sort (CArr b)).
Proof.
  intros t1 t2 d1 d2 H. apply prenormalize_sides in H. destruct H as [H1 H2].
  split; [| split].
  - apply prenormalize_side_first_row. exact H1.
  - apply prenormalize_side_first_row. exact H2.
  - intros a b P. simpl. rewrite (np_sort_order_insensitive a b P).
    reflexivity.
Qed.

Lemma prenormalize_sorts_first_row_only_witness :
  exists d1 d2,
    prenormalize (loaded Examples.arrays_left) (loaded Examples.arrays_right)
    = Ok (d1, d2)
    /\ first_row_sorted Examples.arrays_left d1
    /\ first_row_sorted Examples.arrays_right d2
    /\ (forall a b, Permutation a b -> Np.sort (CArr a) = Np.sort (CArr b)).
Proof.
  eexists. eexists. split.
  - vm_compute. reflexivity.
  - apply (prenormalize_sorts_first_row_only
             Examples.arrays_left Examples.arrays_right).
    vm_compute. reflexivity.
Defined.

(** C5, as stated, fails: the arrays in the second row are not sorted.  The
    two tables agree up to the order inside the arrays; the second-row cell
    of the right table is still [4; 3] after pre-normalization and the
    comparison reports one mismatch for the column. *)
Lemma order_in_second_row_registers :
  exists d1 d2 r cr,
    prenormalize (loaded Examples.arrays_left) (loaded Examples.arrays_right)
    = Ok (d1, d2)
    /\ cell_at d2 "pcodes_power_poles" 1 = Some (CArr [4; 3]%Z)
    /\ compare_data "left.parquet" Examples.arrays_left Examples.arrays_right
         [] [] = Ok r
    /\ dict_get "pcodes_power_poles" (column_results r) = Some cr
    /\ mismatch_number cr = 1
    /\ mt_index (mismatch_data cr) = [[SInt 1%Z]].
Proof.
  do 4 eexists. repeat split; vm_compute; reflexivity.
Qed.

(** ** The ignore-columns filter *)

Lemma drop_names : forall cs df,
    column_names (drop cs df)
    = filter (fun c => negb (mem String.eqb c cs)) (column_names df).
Proof.
  intros cs df. unfold column_names, drop. simpl.
  induction (columns df) as [| [n col] rest IH]; simpl; [reflexivity |].
  destruct (mem String.eqb n cs); simpl; rewrite IH; reflexivity.
Qed.

(** C9 (amended).  With ignoreColumns = ["debug"], a table that has a column
    named debug loses that column (and no other), and a table that has no
    such column is left as it is: each side is filtered on its own. *)
Theorem debug_dropped_from_the_side_that_has_it :
  forall df1 df2,
    In "debug"%string (column_names df1) ->
    ~ In "debug"%string (column_names df2) ->
    drop_ignored ["debug"%string] df1 = drop ["debug"%string] df1
    /\ ~ In "debug"%string (column_names (drop_ignored ["debug"%string] df1))
    /\ (forall c, c <> "debug"%string ->
          (In c (column_names (drop_ignored ["debug"%string] df1))
           <-> In c (column_names df1)))
    /\ drop_ignored ["debug"%string] df2 = df2.
Proof.
  intros df1 df2 H1 H2.
  assert (E1 : drop_ignored ["debug"%string] df1 = drop ["debug"%string] df1).
  { unfold drop_ignored.
    replace (issubset String.eqb ["debug"%string] (column_names df1)) with true;
      [reflexivity |].
    symmetry. apply (issubset_incl String.eqb String.eqb_eq).
    intros c [<- | []]. exact H1. }
  split; [exact E1 |]. rewrite E1, drop_names. repeat split.
  - rewrite filter_In. intros [_ Hm]. apply negb_true_iff in Hm.
    apply (mem_false String.eqb String.eqb_eq) in Hm. apply Hm. simpl. auto.
  - rewrite filter_In. tauto.
  - intros Hc. rewrite filter_In. split; [exact Hc |].
    apply negb_true_iff, (mem_false String.eqb String.eqb_eq).
    intros [Hd | []]. congruence.
  - unfold drop_ignored.
    destruct (issubset String.eqb ["debug"%string] (column_names df2)) eqn:E;
      [| reflexivity].
    exfalso. apply H2.
    apply (issubset_incl String.eqb String.eqb_eq) in E. apply E. simpl. auto.
Qed.

Lemma debug_dropped_from_the_side_that_has_it_witness :
  drop_ignored ["debug"%string] (loaded Examples.with_debug)
  = drop ["debug"%string] (loaded Examples.with_debug)
  /\ ~ In "debug"%string
       (column_names (drop_ignored ["debug"%string]
                        (loaded Examples.with_debug)))
  /\ (forall c, c <> "debug"%string ->
        (In c (column_names (drop_ignored ["debug"%string]
                                (loaded Examples.with_debug)))
         <-> In c (column_names (loaded Examples.with_debug))))
  /\ drop_ignored ["debug"%string] (loaded Examples.without_debug)
     = loaded Examples.without_debug.
Proof.
  apply debug_dropped_from_the_side_that_has_it.
  - simpl. auto.
  - simpl. intros [H | [H | [H | []]]]; discriminate H.
Defined.

(** C9, as stated, fails: the column debug is dropped from the left table.
    With the filter the two column sets agree and the report says so;
    without it the report lists debug as a left-only column. *)
Lemma debug_is_dropped_on_the_left :
  exists res d1 d2 r r',
    prepare "left.parquet" Examples.with_debug Examples.without_debug
      [] ["debug"%string] = Ok (res, d1, d2)
    /\ column_names (loaded Examples.with_debug)
       = ("debug" :: pcodes_columns)%string
    /\ column_names d1 = pcodes_columns
    /\ compare_data "left.parquet" Examples.with_debug Examples.without_debug
         [] ["debug"%string] = Ok r
    /\ match_ r = true /\ left_only_columns r = None
    /\ compare_data "left.parquet" Examples.with_debug Examples.without_debug
         [] [] = Ok r'
    /\ left_only_columns r' = Some ["debug"%string].
Proof.
  do 5 eexists. repeat split; vm_compute; reflexivity.
Qed.

(** ** The keyed scenario *)

(** On the two tables of the scenario as they are given, with the columns id
    and val only, the call raises at line 108: the three array columns are
    required. *)
Lemma scenario_raises :
  compare_data "left.parquet" Examples.scenario_left Examples.scenario_right
    ["id"%string] [] = Raise AttributeError.
Proof. vm_compute. reflexivity. Qed.

(** C1: the code at a failing input.  The two tables of the scenario carry
    the three array columns as well, so that the call gets past line 108.
    The index reconciliation gives index_match = false, right_only_indexes
    = [3] and common_index_count = 2 and keeps the keys 1 and 2; on the
    val columns the comparator returns the single key 2, and lines 198-202
    compute mismatch_number = 1 and mismatch_percent = 50, as expected.
    But val is int64, so lines 205-214 assign the two values of [np.where]
    to the mismatch table of one row: the comparison of the column raises
    ValueError, and so does [compare_data], which returns no report. *)
Theorem scenario_with_pcodes_columns_raises :
  compare_data "left.parquet" Examples.scenario_left_pcodes
    Examples.scenario_right_pcodes ["id"%string] [] = Raise ValueError
  /\ exists res0 k1 k2 res d1 d2 ser1 ser2 mismatch_idx cond values,
       prepare "left.parquet" Examples.scenario_left_pcodes
         Examples.scenario_right_pcodes ["id"%string] [] = Ok (res0, k1, k2)
       /\ reconcile_indices res0 k1 k2 = Ok (res, Some (d1, d2))
       /\ index_match res = false
       /\ right_only_indexes res = [[SInt 3%Z]]
       /\ common_index_count res = 2
       /\ index d1 = [[SInt 1%Z]; [SInt 2%Z]]
       /\ index d2 = [[SInt 1%Z]; [SInt 2%Z]]
       /\ getitem d1 "val" = Ok ser1 /\ getitem d2 "val" = Ok ser2
       /\ series_equals ser1 ser2 = false
       /\ series_nonequal_index ser1 ser2 = Ok mismatch_idx
       /\ mismatch_idx = [[SInt 2%Z]]
       /\ idx_mismatch_pct (length mismatch_idx) (len d1) = Ok (50 # 1)%Q
       /\ pct_condition (sdtype ser1) (sdtype ser2) = true
       /\ series_eq ser1 ser2 = Ok cond
       /\ calculate_pct_mismatch ser1 ser2 = Ok values
       /\ length (where_zero cond values) = 2
       /\ compare_column d1 d2 res "val" = Raise ValueError.
Proof.
  split; [vm_compute; reflexivity |].
  do 11 eexists. repeat split; vm_compute; reflexivity.
Qed.

(** ** The relative-mismatch column *)

(** C2: the code at a failing input.  The left val column is int64 and the
    right one float64; the declared types differ ([dtype_match] is false) and
    the relative-mismatch column is added all the same. *)
Theorem pct_column_added_for_different_dtypes :
  pct_condition Int64 Float64 = true
  /\ exists r cr,
       compare_data "left.parquet" Examples.int_side Examples.float_side [] []
       = Ok r
       /\ dict_get "val" (column_results r) = Some cr
       /\ dtype_match cr = false
       /\ left_dtype cr = Int64 /\ right_dtype cr = Float64
       /\ mt_pct (mismatch_data cr)
          = Some ("mismatch_pct_val"%string, [Fin (100 # 1)%Q]).
Proof.
  split; [reflexivity |].
  do 2 eexists. repeat split; vm_compute; reflexivity.
Qed.

(** ** The null-aware comparator *)

(** C3: the code at a failing input.  The column is null on the left and
    holds 1 on the right, so no key is non-null on both sides, and
    [np.vectorize] refuses the empty input: the comparator raises, and so
    does a whole comparison that contains such a column. *)
Theorem comparator_raises_without_common_non_null_key :
  series_equals Examples.all_null Examples.one_value = false
  /\ series_nonequal_index Examples.all_null Examples.one_value
     = Raise ValueError
  /\ getitem (loaded Examples.null_side) "val" = Ok Examples.all_null
  /\ getitem (loaded Examples.value_side) "val" = Ok Examples.one_value
  /\ compare_data "left.parquet" Examples.null_side Examples.value_side [] []
     = Raise ValueError.
Proof. repeat split; vm_compute; reflexivity. Qed.

(** ** The steps before the comparison of the indices *)

Lemma prenormalize_pair : forall a b a' b',
    prenormalize_side a = Ok a' -> prenormalize_side b = Ok b' ->
    prenormalize a b = Ok (a', b').
Proof.
  intros a b a' b' Ha Hb. unfold prenormalize_side in Ha, Hb.
  unfold prenormalize. repeat inv_bind Ha. repeat inv_bind Hb.
  simpl. rewrite E0. simpl. rewrite E2. simpl. rewrite Ha. simpl.
  rewrite Hb. reflexivity.
Qed.

Lemma prepare_Ok : forall name t1 t2 ic ig res d1 d2,
    prepare name t1 t2 ic ig = Ok (res, d1, d2) ->
    exists p1 p2,
      prenormalize (loaded t1) (loaded t2) = Ok (p1, p2)
      /\ index_tables ic
           (compare_column_sets (set_file_name new_CompareResult name)
              (drop_ignored ig p1) (drop_ignored ig p2))
           (drop_ignored ig p1) (drop_ignored ig p2)
         = Ok (res, d1, d2).
Proof.
  intros name t1 t2 ic ig res d1 d2 H. unfold prepare in H.
  destruct (prenormalize (loaded t1) (loaded t2)) as [[p1 p2] | e] eqn:E;
    simpl in H; [| discriminate].
  exists p1, p2. auto.
Qed.

Lemma index_tables_Ok : forall ic res0 a b res d1 d2,
    index_tables ic res0 a b = Ok (res, d1, d2) ->
    (ic = [] /\ res = res0 /\ d1 = a /\ d2 = b)
    \/ (ic <> [] /\ exists k1 k2,
           index_frame ic a = Ok k1 /\ index_frame ic b = Ok k2
           /\ validate_indices res0 k1 k2 = (res, d1, d2)).
Proof.
  intros ic res0 a b res d1 d2 H. destruct ic as [| c cs]; simpl in H.
  - left. inversion H. auto.
  - right. split; [discriminate |]. repeat inv_bind H.
    exists a0, a1. inversion H. auto.
Qed.

Lemma validate_indices_frames : forall res0 k1 k2 res d1 d2,
    validate_indices res0 k1 k2 = (res, d1, d2) ->
    d1 = validated k1 /\ d2 = validated k2.
Proof.
  intros res0 k1 k2 res d1 d2 H. unfold validate_indices, validated in *.
  destruct (any (duplicated_all (index k1)));
    destruct (any (duplicated_all (index k2)));
    inversion H; auto.
Qed.

Lemma validate_indices_report : forall res0 k1 k2 res d1 d2,
    validate_indices res0 k1 k2 = (res, d1, d2) ->
    data_match res = data_match res0
    /\ column_results res = column_results res0
    /\ index_match res = index_match res0
    /\ left_only_columns res = left_only_columns res0
    /\ right_only_columns res = right_only_columns res0
    /\ left_duplicate res
       = (any (duplicated_all (index k1)) || left_duplicate res0)
    /\ right_duplicate res
       = (any (duplicated_all (index k2)) || right_duplicate res0)
    /\ match_ res
       = (negb (any (duplicated_all (index k1)))
          && negb (any (duplicated_all (index k2))) && match_ res0)
    /\ (any (duplicated_all (index k1)) = true ->
        left_index_duplicates res
        = Some (value_counts
                  (labels_where (duplicated_all (index k1)) (index k1))))
    /\ (any (duplicated_all (index k2)) = true ->
        right_index_duplicates res
        = Some (value_counts
                  (labels_where (duplicated_all (index k2)) (index k2)))).
Proof.
  intros res0 k1 k2 res d1 d2 H. unfold validate_indices in H.
  destruct (any (duplicated_all (index k1)));
    destruct (any (duplicated_all (index k2)));
    inversion H; subst; simpl; repeat split; try reflexivity;
    try discriminate; destruct (match_ res0); reflexivity.
Qed.

Lemma compare_column_sets_report : forall res df1 df2,
    data_match (compare_column_sets res df1 df2) = data_match res
    /\ column_results (compare_column_sets res df1 df2) = column_results res
    /\ index_match (compare_column_sets res df1 df2) = index_match res
    /\ left_duplicate (compare_column_sets res df1 df2) = left_duplicate res
    /\ right_duplicate (compare_column_sets res df1 df2) = right_duplicate res.
Proof.
  intros res df1 df2. unfold compare_column_sets.
  destruct (negb _); simpl; auto.
Qed.

Lemma take_index : forall ps df,
    index (take ps df) = map (fun p => nth p (index df) []) ps.
Proof. reflexivity. Qed.

Lemma take_names : forall ps df, column_names (take ps df) = column_names df.
Proof.
  intros ps df. unfold column_names, take. simpl. rewrite map_map.
  reflexivity.
Qed.

Lemma drop_ignored_index : forall ig df, index (drop_ignored ig df) = index df.
Proof.
  intros ig df. unfold drop_ignored. destruct ig; [reflexivity |].
  destruct (issubset _ _ _); reflexivity.
Qed.

Lemma drop_ignored_names : forall ig df,
    incl (column_names (drop_ignored ig df)) (column_names df).
Proof.
  intros ig df. unfold drop_ignored. destruct ig; [apply incl_refl |].
  destruct (issubset _ _ _); [| apply incl_refl].
  rewrite drop_names. intros c Hc. apply filter_In in Hc. tauto.
Qed.

Lemma argsort_length : forall keys, length (argsort keys) = length keys.
Proof.
  intro keys. unfold argsort.
  rewrite length_map.
  rewrite <- (Permutation_length (sorted_Permutation _ _)).
  rewrite length_combine, length_seq. apply Nat.min_id.
Qed.

Lemma key_labels_length : forall kcols n, length (key_labels kcols n) = n.
Proof. intros. unfold key_labels. rewrite length_map, length_seq. reflexivity. Qed.

(** Keying keeps the number of rows and does not invent columns. *)
Lemma index_frame_inv : forall ic df d,
    index_frame ic df = Ok d ->
    len d = len df /\ incl (column_names d) (column_names df).
Proof.
  intros ic df d H. unfold index_frame in H.
  destruct (sort_values ic df) as [s | e] eqn:Es.
  - assert (Hs : len s = len df /\ column_names s = column_names df).
    { unfold sort_values in Es. destruct (lookup_all ic (columns df)); [| discriminate].
      destruct (forallb key_column_ok l); [| discriminate].
      inversion Es; subst. unfold len. rewrite take_index, length_map, take_names.
      rewrite argsort_length, key_labels_length. auto. }
    destruct Hs as [Hl Hn].
    destruct (set_index ic s) as [k | e] eqn:Ek.
    + inversion H; subst. unfold set_index in Ek.
      destruct (lookup_all ic (columns s)); [| discriminate].
      destruct (forallb key_column_ok l); [| discriminate].
      inversion Ek; subst. split.
      * unfold len. simpl. rewrite key_labels_length. exact Hl.
      * rewrite <- Hn. intros c Hc.
        change (In c (column_names (drop ic s))) in Hc.
        rewrite drop_names in Hc. apply filter_In in Hc. tauto.
    + destruct e; try discriminate. inversion H; subst.
      split; [exact Hl | rewrite Hn; apply incl_refl].
  - destruct e; try discriminate. inversion H; subst.
    split; [reflexivity | apply incl_refl].
Qed.

Lemma keep_first_nonempty : forall k, index k <> [] -> index (keep_first k) <> [].
Proof.
  intros k H. unfold keep_first, getitem_mask. rewrite take_index.
  destruct (index k) as [| x xs]; [congruence |]. simpl. discriminate.
Qed.

Lemma validated_nonempty : forall k, index k <> [] -> index (validated k) <> [].
Proof.
  intros k H. unfold validated. destruct (any _); [| exact H].
  apply keep_first_nonempty. exact H.
Qed.

Lemma len_nonempty : forall a b, len a = len b -> index b <> [] -> index a <> [].
Proof.
  intros a b H Hb Ha. unfold len in H. rewrite Ha in H.
  destruct (index b); [congruence | discriminate].
Qed.

(** After the steps before the index comparison, both tables still have a
    row, and the report has not been told anything about the data. *)
Lemma prepare_inv : forall name t1 t2 ic ig res d1 d2,
    prepare name t1 t2 ic ig = Ok (res, d1, d2) ->
    index d1 <> [] /\ index d2 <> []
    /\ data_match res = true /\ column_results res = []
    /\ index_match res = true.
Proof.
  intros name t1 t2 ic ig res d1 d2 H.
  destruct (prepare_Ok _ _ _ _ _ _ _ _ H) as (p1 & p2 & Hp & Hi).
  apply prenormalize_sides in Hp. destruct Hp as [Hp1 Hp2].
  apply prenormalize_side_inv in Hp1, Hp2.
  destruct Hp1 as (_ & N1 & _ & X1), Hp2 as (_ & N2 & _ & X2).
  assert (M1 : index (drop_ignored ig p1) <> [])
    by (rewrite drop_ignored_index, X1; exact N1).
  assert (M2 : index (drop_ignored ig p2) <> [])
    by (rewrite drop_ignored_index, X2; exact N2).
  pose proof (compare_column_sets_report
                (set_file_name new_CompareResult name)
                (drop_ignored ig p1) (drop_ignored ig p2))
    as (R1 & R2 & R3 & _).
  apply index_tables_Ok in Hi.
  destruct Hi as [(_ & -> & -> & ->) | (_ & k1 & k2 & K1 & K2 & V)].
  - repeat split; assumption.
  - apply index_frame_inv in K1, K2. destruct K1 as [L1 _], K2 as [L2 _].
    destruct (validate_indices_frames _ _ _ _ _ _ V) as [-> ->].
    destruct (validate_indices_report _ _ _ _ _ _ V) as (V1 & V2 & V3 & _).
    repeat split.
    + apply validated_nonempty. eapply len_nonempty; eauto.
    + apply validated_nonempty. eapply len_nonempty; eauto.
    + rewrite V1. exact R1.
    + rewrite V2. exact R2.
    + rewrite V3. exact R3.
Qed.

(** ** The early return *)



(** ** Duplicate keys *)

Lemma combine_map_filter {A : Type} (g : A -> bool) : forall l,
    map fst (filter (fun kb => snd kb) (combine l (map g l))) = filter g l.
Proof.
  induction l as [| x xs IH]; simpl; [reflexivity |].
  destruct (g x); simpl; rewrite IH; reflexivity.
Qed.


Lemma any_duplicated_all : forall idx,
    any (duplicated_all idx) = true
    <-> exists k, In k idx /\ 2 <= count label_eqb k idx.
Proof.
  intro idx. unfold any, duplicated_all. rewrite existsb_exists. split.
  - intros [b [Hb ->]]. apply in_map_iff in Hb. destruct Hb as [k [Hk Hin]].
    exists k. apply Nat.ltb_lt in Hk. split; [exact Hin | lia].
  - intros [k [Hin Hc]]. exists true. split; [| reflexivity].
    apply in_map_iff. exists k. split; [| exact Hin]. apply Nat.ltb_lt. lia.
Qed.

Lemma count_cons_le : forall (x y : label) l,
    count label_eqb x l <= count label_eqb x (y :: l).
Proof.
  intros x y l. unfold count. simpl. destruct (label_eqb x y); simpl; lia.
Qed.





Lemma duplicated_first_from_spec : forall idx seen pre,
    (forall k, mem label_eqb k seen = mem label_eqb k pre) ->
    duplicated_first_from seen idx
    = map (fun q => mem label_eqb (nth q idx []) (pre ++ firstn q idx))
          (seq 0 (length idx)).
Proof.
  induction idx as [| a idx IH]; intros seen pre H; simpl; [reflexivity |].
  f_equal.
  - rewrite app_nil_r. apply H.
  - rewrite <- seq_shift, map_map. rewrite (IH (a :: seen) (pre ++ [a])).
    + apply map_ext. intro q. simpl. rewrite <- app_assoc. reflexivity.
    + intro k. unfold mem in *. rewrite existsb_app. simpl.
      rewrite orb_false_r, orb_comm. f_equal. apply H.
Qed.

Lemma index_of_firstn : forall (x : label) l i,
    index_of label_eqb x l = Some i -> ~ In x (firstn i l).
Proof.
  intros x l. induction l as [| y ys IH]; simpl; intros i H; [discriminate |].
  destruct (label_eqb x y) eqn:E.
  - inversion H; subst. simpl. tauto.
  - destruct (index_of label_eqb x ys) as [j |] eqn:Ej; simpl in H;
      [| discriminate].
    inversion H; subst. simpl. intros [Hy | Hin].
    + subst. rewrite (eqb_refl' label_eqb label_eqb_eq) in E. discriminate.
    + exact (IH j eq_refl Hin).
Qed.

Lemma nth_In_firstn : forall (l : list label) i q,
    i < q -> q <= length l -> In (nth i l []) (firstn q l).
Proof.
  intros l i q Hi Hq.
  assert (E : nth i (firstn q l) [] = nth i l []).
  { rewrite nth_firstn. apply Nat.ltb_lt in Hi. rewrite Hi. reflexivity. }
  rewrite <- E. apply nth_In. rewrite length_firstn. lia.
Qed.

Lemma mem_firstn_first_occurrence : forall idx q,
    q < length idx ->
    mem label_eqb (nth q idx []) (firstn q idx)
    = negb (first_occurrence idx q).
Proof.
  intros idx q Hq. unfold first_occurrence.
  match goal with
  | |- context [index_of ?e ?x ?l] =>
      destruct (index_of e x l) as [i |] eqn:Hi
  end;
    [| exfalso; apply (index_of_None label_eqb label_eqb_eq _ _ Hi);
       apply nth_In; exact Hq].
  destruct (index_of_Some label_eqb label_eqb_eq _ _ _ [] Hi) as [Hlt Hn].
  pose proof (index_of_firstn _ _ _ Hi) as Hnin.
  destruct (i =? q) eqn:E.
  - apply Nat.eqb_eq in E. subst i. simpl.
    apply (mem_false label_eqb label_eqb_eq). exact Hnin.
  - apply Nat.eqb_neq in E. simpl. apply (mem_In label_eqb label_eqb_eq).
    assert (Hiq : i < q).
    { destruct (Nat.lt_ge_cases i q) as [Hl | Hg]; [exact Hl |].
      exfalso. apply Hnin. apply nth_In_firstn; lia. }
    assert (X : In (nth i idx []) (firstn q idx))
      by (apply nth_In_firstn; lia).
    exact (eq_ind _ (fun x => In x (firstn q idx)) X _ Hn).
Qed.

(** The rows kept by [keep="first"] are the first occurrences. *)
Lemma keep_first_positions : forall idx,
    mask_positions (map negb (duplicated_first idx)) = first_rows idx.
Proof.
  intro idx. unfold duplicated_first, first_rows.
  rewrite (duplicated_first_from_spec idx [] []) by reflexivity.
  unfold mask_positions. rewrite !length_map, length_seq, map_map.
  rewrite combine_map_filter. apply filter_ext_in. intros q Hq.
  apply in_seq in Hq. simpl.
  rewrite mem_firstn_first_occurrence by lia. apply negb_involutive.
Qed.

Lemma keep_first_take : forall k,
    keep_first k = take (first_rows (index k)) k.
Proof.
  intro k. unfold keep_first, getitem_mask. rewrite keep_first_positions.
  reflexivity.
Qed.

Lemma first_rows_NoDup : forall idx,
    NoDup (map (fun p => nth p idx []) (first_rows idx)).
Proof.
  intro idx. apply NoDup_map_NoDup_ForallPairs.
  - intros a b Ha Hb He. unfold first_rows in Ha, Hb.
    apply filter_In in Ha, Hb. destruct Ha as [_ Ha], Hb as [_ Hb].
    unfold first_occurrence in Ha, Hb. rewrite He in Ha.
    destruct (index_of label_eqb (nth b idx []) idx) as [q |]; [| discriminate].
    apply Nat.eqb_eq in Ha, Hb. congruence.
  - apply NoDup_filter, seq_NoDup.
Qed.

Lemma keep_first_NoDup : forall k, NoDup (index (keep_first k)).
Proof.
  intro k. rewrite keep_first_take, take_index. apply first_rows_NoDup.
Qed.

(** ** What the later steps leave alone *)

Lemma set_column_results_id : forall res,
    set_column_results res (column_results res) = res.
Proof. intros []. reflexivity. Qed.

Lemma compare_column_report : forall d1 d2 res col r,
    compare_column d1 d2 res col = Ok r ->
    exists crs, r = set_column_results res crs.
Proof.
  intros d1 d2 res col r H. unfold compare_column in H.
  repeat inv_bind H. destruct (negb (series_equals a a0)).
  - repeat inv_bind H. inversion H. eauto.
  - inversion H; subst. exists (column_results r).
    symmetry. apply set_column_results_id.
Qed.

Lemma for_each_compare_column_report : forall d1 d2 cols res r,
    for_each (compare_column d1 d2) cols res = Ok r ->
    exists crs, r = set_column_results res crs.
Proof.
  intros d1 d2 cols. induction cols as [| c cs IH]; intros res r H; simpl in H.
  - inversion H; subst. exists (column_results r).
    symmetry. apply set_column_results_id.
  - inv_bind H. apply compare_column_report in E. destruct E as [crs ->].
    apply IH in H. destruct H as [crs' ->]. exists crs'. reflexivity.
Qed.

Lemma compare_columns_report : forall res d1 d2 r,
    compare_columns res d1 d2 = Ok r ->
    r = res
    \/ exists crs,
         r = set_column_results (set_data_match (set_match res false) false) crs.
Proof.
  intros res d1 d2 r H. unfold compare_columns in H.
  destruct (_ || _).
  - right. apply for_each_compare_column_report in H. exact H.
  - left. inversion H. reflexivity.
Qed.

Lemma reconcile_indices_report : forall res d1 d2 res' al,
    reconcile_indices res d1 d2 = Ok (res', al) ->
    left_duplicate res' = left_duplicate res
    /\ right_duplicate res' = right_duplicate res
    /\ left_index_duplicates res' = left_index_duplicates res
    /\ right_index_duplicates res' = right_index_duplicates res
    /\ left_index_count res' = len d1
    /\ right_index_count res' = len d2
    /\ (match_ res = false -> match_ res' = false).
Proof.
  intros res d1 d2 res' al H. unfold reconcile_indices in H.
  destruct (negb (index_equals (index d1) (index d2))).
  - destruct (set_inter label_eqb (index d1) (index d2)).
    + inversion H; subst. simpl. repeat split; auto.
    + repeat inv_bind H. inversion H; subst. simpl. repeat split; auto.
  - inversion H; subst. simpl. repeat split; auto.
Qed.

Lemma compare_data_Ok : forall name t1 t2 ic ig r,
    compare_data name t1 t2 ic ig = Ok r ->
    exists res d1 d2 res' al,
      prepare name t1 t2 ic ig = Ok (res, d1, d2)
      /\ reconcile_indices res d1 d2 = Ok (res', al)
      /\ match al with
         | None => r = res'
         | Some (a1, a2) => compare_columns res' a1 a2 = Ok r
         end.
Proof.
  intros name t1 t2 ic ig r H. unfold compare_data in H.
  destruct (prepare name t1 t2 ic ig) as [[[res d1] d2] | e] eqn:Ep;
    simpl in H; [| discriminate].
  destruct (reconcile_indices res d1 d2) as [[res' al] | e] eqn:Er;
    simpl in H; [| discriminate].
  exists res, d1, d2, res', al.
  split; [reflexivity |]. split; [exact Er |].
  destruct al as [[a1 a2] |]; [exact H | inversion H; reflexivity].
Qed.

(** The fields written by the index steps reach the final report. *)
Lemma compare_data_index_fields : forall name t1 t2 ic ig r res d1 d2,
    compare_data name t1 t2 ic ig = Ok r ->
    prepare name t1 t2 ic ig = Ok (res, d1, d2) ->
    left_duplicate r = left_duplicate res
    /\ right_duplicate r = right_duplicate res
    /\ left_index_duplicates r = left_index_duplicates res
    /\ right_index_duplicates r = right_index_duplicates res
    /\ left_index_count r = len d1
    /\ right_index_count r = len d2
    /\ (match_ res = false -> match_ r = false).
Proof.
  intros name t1 t2 ic ig r res d1 d2 H Hp.
  destruct (compare_data_Ok _ _ _ _ _ _ H)
    as (res0 & e1 & e2 & res' & al & Hp' & Hr & Hal).
  rewrite Hp in Hp'. inversion Hp'; subst res0 e1 e2. clear Hp'.
  pose proof (reconcile_indices_report _ _ _ _ _ Hr) as Hf.
  destruct al as [[a1 a2] |]; [| subst r; exact Hf].
  apply compare_columns_report in Hal.
  destruct Hal as [-> | [crs ->]]; [exact Hf |].
  simpl. destruct Hf as (F1 & F2 & F3 & F4 & F5 & F6 & F7).
  repeat split; auto.
Qed.

Lemma prepare_keyed : forall name t1 t2 ic ig p1 p2 k1 k2,
    ic <> [] ->
    prenormalize (loaded t1) (loaded t2) = Ok (p1, p2) ->
    index_frame ic (drop_ignored ig p1) = Ok k1 ->
    index_frame ic (drop_ignored ig p2) = Ok k2 ->
    prepare name t1 t2 ic ig
    = Ok (validate_indices
            (compare_column_sets (set_file_name new_CompareResult name)
               (drop_ignored ig p1) (drop_ignored ig p2))
            k1 k2).
Proof.
  intros name t1 t2 ic ig p1 p2 k1 k2 Hic Hp K1 K2. unfold prepare.
  rewrite Hp. simpl. destruct ic as [| c cs]; [congruence |].
  unfold index_tables. rewrite K1. simpl. rewrite K2. reflexivity.
Qed.



(** ** Identical tables *)

Lemma NoDup_count : forall (l : list label) x,
    NoDup l -> count label_eqb x l <= 1.
Proof.
  intros l x H. induction H as [| y ys Hnin Hnd IH]; [unfold count; simpl; lia |].
  unfold count in *. simpl. destruct (label_eqb x y) eqn:E; [| exact IH].
  apply label_eqb_eq in E. subst y. simpl.
  assert (Hz : ~ 0 < count label_eqb x ys).
  { intro Hc. apply Hnin. apply (count_pos_In label_eqb label_eqb_eq). exact Hc. }
  unfold count in Hz. lia.
Qed.

Lemma NoDup_no_duplicates : forall idx,
    NoDup idx -> any (duplicated_all idx) = false.
Proof.
  intros idx H. destruct (any (duplicated_all idx)) eqn:E; [| reflexivity].
  apply any_duplicated_all in E. destruct E as (k & _ & Hc).
  pose proof (NoDup_count idx k H). lia.
Qed.

Lemma no_duplicates_NoDup : forall idx,
    any (duplicated_all idx) = false -> NoDup idx.
Proof.
  intros idx H.
  assert (Hc : forall k, In k idx -> count label_eqb k idx <= 1).
  { intros k Hk. destruct (Nat.le_gt_cases (count label_eqb k idx) 1) as [Hl | Hg];
      [exact Hl |].
    assert (E : any (duplicated_all idx) = true)
      by (apply any_duplicated_all; exists k; split; [exact Hk | lia]).
    congruence. }
  clear H. induction idx as [| y ys IH]; constructor.
  - intro Hin. specialize (Hc y (or_introl eq_refl)). unfold count in Hc.
    simpl in Hc. rewrite (eqb_refl' label_eqb label_eqb_eq) in Hc. simpl in Hc.
    apply (count_pos_In label_eqb label_eqb_eq) in Hin. unfold count in Hin. lia.
  - apply IH. intros k Hk. specialize (Hc k (or_intror Hk)).
    pose proof (count_cons_le k y ys). lia.
Qed.

Lemma validated_NoDup : forall k, NoDup (index (validated k)).
Proof.
  intro k. unfold validated.
  destruct (any (duplicated_all (index k))) eqn:E.
  - apply keep_first_NoDup.
  - apply no_duplicates_NoDup. exact E.
Qed.

Lemma series_equals_refl : forall s, series_equals s s = true.
Proof.
  intro s. unfold series_equals.
  replace (index_equals (sindex s) (sindex s)) with true
    by (symmetry; apply index_equals_eq; reflexivity).
  replace (dtype_eqb (sdtype s) (sdtype s)) with true
    by (symmetry; apply dtype_eqb_eq; reflexivity).
  simpl. apply list_eqb_refl. apply array_equivalent_refl.
Qed.

Lemma equals_on_refl : forall cols d,
    incl cols (column_names d) -> equals_on cols d d = true.
Proof.
  intros cols d H. unfold equals_on.
  replace (index_equals (index d) (index d)) with true
    by (symmetry; apply index_equals_eq; reflexivity).
  simpl. apply forallb_forall. intros c Hc. unfold getitem.
  destruct (lookup_column_Some c (columns d) (H c Hc)) as [col ->].
  apply series_equals_refl.
Qed.

Lemma set_eqb_refl : forall l : list string, set_eqb String.eqb l l = true.
Proof.
  intro l. unfold set_eqb.
  rewrite (issubset_refl String.eqb String.eqb_eq). reflexivity.
Qed.

(** A table compared with itself passes the index comparison and the quick
    check of the data. *)
Lemma compare_same_frame : forall res d,
    exists r,
      reconcile_indices res d d = Ok (r, Some (d, d))
      /\ compare_columns r d d = Ok r
      /\ r = set_common_index_count
               (set_index_counts res (len d) (len d)) (len d).
Proof.
  intros res d. eexists. split; [| split; [| reflexivity]].
  - unfold reconcile_indices.
    replace (index_equals (index d) (index d)) with true
      by (symmetry; apply index_equals_eq; reflexivity).
    reflexivity.
  - unfold compare_columns. rewrite equals_on_refl, set_eqb_refl.
    + reflexivity.
    + intros c Hc. apply filter_In in Hc. tauto.
Qed.

(** C4 (amended).  Let T be a table that has a row and holds an array in the
    first row of each of the three array columns (so that pre-normalization
    succeeds) and that, when key columns are given, is keyed without two rows
    sharing a key.  Then [compare_data] on two identical copies of T returns
    a report with match = true, data_match = true, no column results, no
    duplicate flag and index_match = true. *)
Theorem identical_tables_match :
  forall name t index_cols ignore_cols,
    nrows t <> 0 ->
    (forall c, In c pcodes_columns ->
       exists a, cell_at (loaded t) c 0 = Some (CArr a)) ->
    (index_cols <> [] ->
     forall p, prenormalize_side (loaded t) = Ok p ->
       exists k, index_frame index_cols (drop_ignored ignore_cols p) = Ok k
                 /\ NoDup (index k)) ->
    exists r,
      compare_data name t t index_cols ignore_cols = Ok r
      /\ match_ r = true /\ data_match r = true
      /\ column_results r = []
      /\ left_duplicate r = false /\ right_duplicate r = false
      /\ index_match r = true.
Proof.
  intros name t ic ig Hrows Harr Hk.
  destruct (proj2 (prenormalize_side_succeeds t) (conj Hrows Harr)) as [p Hp].
  pose proof (prenormalize_pair _ _ _ _ Hp Hp) as Hpp.
  set (res0 := set_file_name new_CompareResult name).
  assert (Hprep : exists d, prepare name t t ic ig = Ok (res0, d, d)).
  { destruct ic as [| c cs].
    - exists (drop_ignored ig p). unfold prepare. rewrite Hpp. simpl.
      unfold compare_column_sets. rewrite set_eqb_refl. reflexivity.
    - destruct (Hk ltac:(discriminate) p Hp) as (k & K & Hnd). exists k.
      rewrite (prepare_keyed name t t (c :: cs) ig p p k k
                 ltac:(discriminate) Hpp K K).
      unfold compare_column_sets. rewrite set_eqb_refl. simpl.
      unfold validate_indices. rewrite (NoDup_no_duplicates _ Hnd).
      reflexivity. }
  destruct Hprep as [d Hprep].
  destruct (compare_same_frame res0 d) as (r & Hr & Hc & ->).
  eexists. split.
  - unfold compare_data. rewrite Hprep. simpl. rewrite Hr. simpl. exact Hc.
  - unfold res0. simpl. repeat split; reflexivity.
Qed.

Lemma identical_tables_match_witness :
  exists r,
    compare_data "left.parquet" Examples.scenario_left_pcodes
      Examples.scenario_left_pcodes ["id"%string] [] = Ok r
    /\ match_ r = true /\ data_match r = true
    /\ column_results r = []
    /\ left_duplicate r = false /\ right_duplicate r = false
    /\ index_match r = true.
Proof.
  apply (identical_tables_match "left.parquet"%string
           Examples.scenario_left_pcodes ["id"%string] []).
  - discriminate.
  - intros c [<- | [<- | [<- | []]]]; eexists; reflexivity.
  - intros _ p Hp. vm_compute in Hp. inversion Hp; subst p. clear Hp.
    eexists. split; [vm_compute; reflexivity |].
    repeat constructor; simpl; intros H;
      repeat (destruct H as [H | H]; try discriminate H); exact H.
Defined.

(** C4, as stated, fails: a table without the three array columns makes the
    call raise, also when it is compared with itself; and with key columns a
    table with a repeated key is reported as a mismatch with itself. *)
Lemma identical_tables_without_pcodes_raise :
  compare_data "left.parquet" Examples.scenario_left Examples.scenario_left
    [] [] = Raise AttributeError
  /\ exists r,
       compare_data "left.parquet" Examples.duplicate_key
         Examples.duplicate_key ["id"%string] [] = Ok r
       /\ match_ r = false /\ left_duplicate r = true.
Proof.
  split; [vm_compute; reflexivity |].
  eexists. repeat split; vm_compute; reflexivity.
Qed.

(** ** Aligned tables *)









Lemma RangeIndex_NoDup : forall n, NoDup (RangeIndex n).
Proof.
  intro n. unfold RangeIndex. apply NoDup_map_NoDup_ForallPairs.
  - intros a b _ _ H. inversion H. lia.
  - apply seq_NoDup.
Qed.





(** ** The comparator on aligned columns *)


Lemma index_where_nth : forall (p : cell -> bool) s i,
    NoDup (sindex s) -> length (svalues s) = length (sindex s) ->
    i < length (sindex s) ->
    (In (nth i (sindex s) []) (index_where p s)
     <-> p (nth i (svalues s) CNull) = true).
Proof.
  intros p s i Hnd Hlen Hi. unfold index_where. rewrite in_map_iff. split.
  - intros ([k c] & Hk & Hin). simpl in Hk. subst k.
    apply filter_In in Hin. destruct Hin as [Hin Hp]. simpl in Hp.
    destruct (In_nth _ _ ([], CNull) Hin) as (j & Hj & Hnth).
    rewrite combine_nth in Hnth by (symmetry; exact Hlen).
    inversion Hnth as [[Hk Hc]].
    rewrite length_combine, Hlen, Nat.min_id in Hj.
    assert (j = i) by (apply (proj1 (NoDup_nth (sindex s) []) Hnd); assumption).
    subst j. rewrite Hc. exact Hp.
  - intros Hp. exists (nth i (sindex s) [], nth i (svalues s) CNull).
    split; [reflexivity |]. apply filter_In. split; [| exact Hp].
    rewrite <- combine_nth by (symmetry; exact Hlen).
    apply nth_In. rewrite length_combine, Hlen, Nat.min_id. exact Hi.
Qed.






(** ** The recorded column results *)










(** ** The report as a whole *)

Lemma reconcile_indices_cases : forall res d1 d2 res' al,
    reconcile_indices res d1 d2 = Ok (res', al) ->
    (index_equals (index d1) (index d2) = true
     /\ al = Some (d1, d2)
     /\ res' = set_common_index_count
                 (set_index_counts res (len d1) (len d2)) (len d1))
    \/ (index_equals (index d1) (index d2) = false
        /\ res' = set_common_index_count
                    (set_only_indexes
                       (set_index_match
                          (set_match (set_index_counts res (len d1) (len d2))
                             false) false)
                       (sorted label_leb
                          (set_diff label_eqb (index d1) (index d2)))
                       (sorted label_leb
                          (set_diff label_eqb (index d2) (index d1))))
                    (length (set_inter label_eqb (index d1) (index d2)))
        /\ ((set_inter label_eqb (index d1) (index d2) = [] /\ al = None)
            \/ exists a1 a2,
                 al = Some (a1, a2)
                 /\ loc d1 (set_inter label_eqb (index d1) (index d2)) = Ok a1
                 /\ loc d2 (set_inter label_eqb (index d1) (index d2))
                    = Ok a2)).
Proof.
  intros res d1 d2 res' al H. unfold reconcile_indices in H.
  destruct (index_equals (index d1) (index d2)) eqn:Eeq; simpl in H.
  - left. inversion H. auto.
  - right. split; [reflexivity |].
    destruct (set_inter label_eqb (index d1) (index d2)) as [| k ks] eqn:Ei.
    + inversion H. auto.
    + repeat inv_bind H. inversion H; subst. split; [reflexivity |].
      right. exists a, a0. auto.
Qed.

Lemma prepare_report : forall name t1 t2 ic ig res d1 d2,
    prepare name t1 t2 ic ig = Ok (res, d1, d2) ->
    data_match res = true /\ index_match res = true
    /\ column_results res = []
    /\ left_only_indexes res = [] /\ right_only_indexes res = []
    /\ match_ res
       = (match left_only_columns res with None => true | Some _ => false end
          && negb (left_duplicate res) && negb (right_duplicate res))
    /\ (left_only_columns res = None <-> right_only_columns res = None).
Proof.
  intros name t1 t2 ic ig res d1 d2 H.
  destruct (prepare_Ok _ _ _ _ _ _ _ _ H) as (p1 & p2 & _ & Hi).
  remember (compare_column_sets (set_file_name new_CompareResult name)
              (drop_ignored ig p1) (drop_ignored ig p2)) as res0 eqn:E0.
  assert (H0 : data_match res0 = true /\ index_match res0 = true
               /\ column_results res0 = []
               /\ left_only_indexes res0 = [] /\ right_only_indexes res0 = []
               /\ match_ res0
                  = (match left_only_columns res0 with
                     | None => true | Some _ => false end
                     && negb (left_duplicate res0)
                     && negb (right_duplicate res0))
               /\ (left_only_columns res0 = None
                   <-> right_only_columns res0 = None)
               /\ left_duplicate res0 = false /\ right_duplicate res0 = false).
  { subst res0. unfold compare_column_sets. destruct (negb _); simpl;
      repeat split; auto; discriminate. }
  clear E0. apply index_tables_Ok in Hi.
  destruct Hi as [(_ & -> & _ & _) | (_ & k1 & k2 & _ & _ & V)].
  - tauto.
  - destruct H0 as (A1 & A2 & A3 & A4 & A5 & A6 & A7 & A8 & A9).
    unfold validate_indices in V.
    destruct (any (duplicated_all (index k1)));
      destruct (any (duplicated_all (index k2)));
      inversion V; subst; simpl;
      repeat split; auto; try tauto; try exact (proj1 A7); try exact (proj2 A7);
      repeat match goal with
             | |- context [left_only_columns ?x] => destruct (left_only_columns x)
             | |- context [left_duplicate ?x] => destruct (left_duplicate x)
             | |- context [right_duplicate ?x] => destruct (right_duplicate x)
             end; reflexivity.
Qed.

(** X1.  In every report that [compare_data] returns, match is true exactly
    when no column is on one side only, the indices match, the data match
    and neither side has a duplicate key. *)
Theorem match_iff_nothing_differs :
  forall name t1 t2 index_cols ignore_cols r,
    compare_data name t1 t2 index_cols ignore_cols = Ok r ->
    (match_ r = true
     <-> left_only_columns r = None /\ right_only_columns r = None
         /\ index_match r = true /\ data_match r = true
         /\ left_duplicate r = false /\ right_duplicate r = false).
Proof.
  intros name t1 t2 ic ig r H.
  destruct (compare_data_Ok _ _ _ _ _ _ H)
    as (res & d1 & d2 & res' & al & Hp & Hr & Hal).
  destruct (prepare_report _ _ _ _ _ _ _ _ Hp)
    as (P1 & P2 & _ & _ & _ & P6 & P7).
  assert (Hres' : data_match res' = true
                  /\ left_only_columns res' = left_only_columns res
                  /\ right_only_columns res' = right_only_columns res
                  /\ left_duplicate res' = left_duplicate res
                  /\ right_duplicate res' = right_duplicate res
                  /\ match_ res' = (match_ res && index_match res')).
  { destruct (reconcile_indices_cases _ _ _ _ _ Hr)
      as [(_ & _ & ->) | (_ & -> & _)]; simpl; rewrite ?P2;
      repeat split; auto; destruct (match_ res); reflexivity. }
  destruct Hres' as (Q1 & Q2 & Q3 & Q4 & Q5 & Q6).
  assert (Hfin : left_only_columns r = left_only_columns res
                 /\ right_only_columns r = right_only_columns res
                 /\ left_duplicate r = left_duplicate res
                 /\ right_duplicate r = right_duplicate res
                 /\ index_match r = index_match res'
                 /\ match_ r = (match_ res' && data_match r)).
  { destruct al as [[a1 a2] |].
    - apply compare_columns_report in Hal.
      destruct Hal as [-> | [crs ->]]; simpl.
      + rewrite Q1, andb_true_r. repeat split; auto.
      + rewrite andb_false_r. repeat split; auto.
    - subst r. rewrite Q1, andb_true_r. repeat split; auto. }
  destruct Hfin as (F1 & F2 & F3 & F4 & F5 & F6).
  rewrite F6, Q6, P6, F1, F2, F3, F4, F5.
  destruct (left_only_columns res) eqn:EL; destruct (right_only_columns res) eqn:ER;
    destruct (left_duplicate res); destruct (right_duplicate res);
    destruct (index_match res'); destruct (data_match r); simpl;
    try (split; [discriminate | intros (? & ? & ? & ? & ? & ?); discriminate]);
    try (split; [intros _; repeat split; reflexivity | reflexivity]).
  exfalso. assert (X : Some l = None) by (apply P7; reflexivity). discriminate.
Qed.

Lemma match_iff_nothing_differs_witness :
  exists r,
    compare_data "left.parquet" Examples.with_debug Examples.without_debug
      [] [] = Ok r
    /\ (match_ r = true
        <-> left_only_columns r = None /\ right_only_columns r = None
            /\ index_match r = true /\ data_match r = true
            /\ left_duplicate r = false /\ right_duplicate r = false).
Proof.
  eexists. split; [vm_compute; reflexivity |].
  apply (match_iff_nothing_differs "left.parquet"%string
           Examples.with_debug Examples.without_debug [] []).
  vm_compute. reflexivity.
Defined.

Lemma validated_len_le : forall k, len (validated k) <= len k.
Proof.
  intro k. unfold validated. destruct (any _); [| lia].
  rewrite keep_first_take. unfold len. rewrite take_index, length_map.
  unfold first_rows.
  etransitivity; [apply filter_length_le |]. rewrite length_seq. lia.
Qed.

Lemma prepare_lens : forall name t1 t2 ic ig res d1 d2,
    prepare name t1 t2 ic ig = Ok (res, d1, d2) ->
    NoDup (index d1) /\ NoDup (index d2)
    /\ 1 <= len d1 <= nrows t1 /\ 1 <= len d2 <= nrows t2.
Proof.
  intros name t1 t2 ic ig res d1 d2 H.
  destruct (prepare_inv _ _ _ _ _ _ _ _ H) as (N1 & N2 & _).
  assert (P1 : 1 <= len d1) by (unfold len; destruct (index d1); simpl; [congruence | lia]).
  assert (P2 : 1 <= len d2) by (unfold len; destruct (index d2); simpl; [congruence | lia]).
  destruct (prepare_Ok _ _ _ _ _ _ _ _ H) as (p1 & p2 & Hp & Hi).
  apply prenormalize_sides in Hp. destruct Hp as [Hp1 Hp2].
  apply prenormalize_side_inv in Hp1, Hp2.
  destruct Hp1 as (_ & _ & _ & X1), Hp2 as (_ & _ & _ & X2).
  assert (L : forall t p, index p = index (loaded t) ->
                          len (drop_ignored ig p) = nrows t
                          /\ NoDup (index (drop_ignored ig p))).
  { intros t p X. unfold len. rewrite drop_ignored_index, X. simpl. split.
    - unfold RangeIndex. rewrite length_map, length_seq. reflexivity.
    - apply RangeIndex_NoDup. }
  destruct (L t1 p1 X1) as [L1 D1]. destruct (L t2 p2 X2) as [L2 D2].
  apply index_tables_Ok in Hi.
  destruct Hi as [(_ & _ & -> & ->) | (_ & k1 & k2 & K1 & K2 & V)].
  - repeat split; auto; lia.
  - destruct (validate_indices_frames _ _ _ _ _ _ V) as [E1 E2].
    apply index_frame_inv in K1, K2. destruct K1 as [K1 _], K2 as [K2 _].
    pose proof (validated_len_le k1). pose proof (validated_len_le k2).
    subst d1 d2. repeat split; auto using validated_NoDup; lia.
Qed.

(** X2.  In every report that [compare_data] returns with index_match true,
    the three row counts agree: common_index_count = left_index_count =
    right_index_count. *)
Theorem index_match_counts_agree :
  forall name t1 t2 index_cols ignore_cols r,
    compare_data name t1 t2 index_cols ignore_cols = Ok r ->
    index_match r = true ->
    common_index_count r = left_index_count r
    /\ left_index_count r = right_index_count r.
Proof.
  intros name t1 t2 ic ig r H Him.
  destruct (compare_data_Ok _ _ _ _ _ _ H)
    as (res & d1 & d2 & res' & al & Hp & Hr & Hal).
  assert (Hres' : index_match r = index_match res'
                  /\ common_index_count r = common_index_count res'
                  /\ left_index_count r = left_index_count res'
                  /\ right_index_count r = right_index_count res').
  { destruct al as [[a1 a2] |]; [| subst r; auto].
    apply compare_columns_report in Hal.
    destruct Hal as [-> | [crs ->]]; simpl; auto. }
  destruct Hres' as (E1 & E2 & E3 & E4). rewrite E1 in Him. rewrite E2, E3, E4.
  destruct (reconcile_indices_cases _ _ _ _ _ Hr)
    as [(Heq & _ & ->) | (_ & -> & _)]; simpl in *; [| discriminate].
  apply index_equals_eq in Heq. unfold len. rewrite Heq. auto.
Qed.

Lemma index_match_counts_agree_witness :
  exists r,
    compare_data "left.parquet" Examples.int_side Examples.float_side [] []
    = Ok r
    /\ common_index_count r = left_index_count r
    /\ left_index_count r = right_index_count r.
Proof.
  eexists. split; [vm_compute; reflexivity |].
  apply (index_match_counts_agree "left.parquet"%string
           Examples.int_side Examples.float_side [] []);
    vm_compute; reflexivity.
Defined.

Lemma filter_partition_length {A : Type} (f : A -> bool) : forall l,
    length (filter f l) + length (filter (fun x => negb (f x)) l) = length l.
Proof.
  induction l as [| x xs IH]; simpl; [reflexivity |].
  destruct (f x); simpl; lia.
Qed.

Lemma set_inter_length_sym : forall i1 i2 : list label,
    NoDup i1 -> NoDup i2 ->
    length (set_inter label_eqb i1 i2) = length (set_inter label_eqb i2 i1).
Proof.
  intros i1 i2 N1 N2. apply Permutation_length. apply NoDup_Permutation.
  - apply set_inter_NoDup, label_eqb_eq.
  - apply set_inter_NoDup, label_eqb_eq.
  - intro k. rewrite !(set_inter_In label_eqb label_eqb_eq). tauto.
Qed.

Lemma set_diff_inter_length : forall i1 i2 : list label,
    NoDup i1 ->
    length (set_inter label_eqb i1 i2) + length (set_diff label_eqb i1 i2)
    = length i1.
Proof.
  intros i1 i2 N1. unfold set_inter, set_diff.
  rewrite (set_of_NoDup_id label_eqb label_eqb_eq _ N1).
  apply filter_partition_length.
Qed.

(** X3.  In every report that [compare_data] returns, each side's row count
    is the number of common keys plus the number of keys only that side has:
    left_index_count = common_index_count + len(left_only_indexes), and the
    same on the right. *)
Theorem index_counts_add_up :
  forall name t1 t2 index_cols ignore_cols r,
    compare_data name t1 t2 index_cols ignore_cols = Ok r ->
    left_index_count r
    = common_index_count r + length (left_only_indexes r)
    /\ right_index_count r
       = common_index_count r + length (right_only_indexes r).
Proof.
  intros name t1 t2 ic ig r H.
  destruct (compare_data_Ok _ _ _ _ _ _ H)
    as (res & d1 & d2 & res' & al & Hp & Hr & Hal).
  destruct (prepare_report _ _ _ _ _ _ _ _ Hp) as (_ & _ & _ & L0 & R0 & _).
  destruct (prepare_lens _ _ _ _ _ _ _ _ Hp) as (N1 & N2 & _).
  assert (Hres' : common_index_count r = common_index_count res'
                  /\ left_index_count r = left_index_count res'
                  /\ right_index_count r = right_index_count res'
                  /\ left_only_indexes r = left_only_indexes res'
                  /\ right_only_indexes r = right_only_indexes res').
  { destruct al as [[a1 a2] |]; [| subst r; repeat split; auto].
    apply compare_columns_report in Hal.
    destruct Hal as [-> | [crs ->]]; simpl; repeat split; auto. }
  destruct Hres' as (E1 & E2 & E3 & E4 & E5). rewrite E1, E2, E3, E4, E5.
  destruct (reconcile_indices_cases _ _ _ _ _ Hr)
    as [(Heq & _ & ->) | (_ & -> & _)]; simpl.
  - rewrite L0, R0. simpl. apply index_equals_eq in Heq. unfold len.
    rewrite Heq. lia.
  - rewrite !sorted_length. unfold len. split.
    + symmetry. apply set_diff_inter_length. exact N1.
    + rewrite (set_inter_length_sym _ _ N1 N2). symmetry.
      apply set_diff_inter_length. exact N2.
Qed.

Lemma index_counts_add_up_witness :
  exists r,
    compare_data "left.parquet" Examples.key_one Examples.key_two
      ["id"%string] [] = Ok r
    /\ left_index_count r
       = common_index_count r + length (left_only_indexes r)
    /\ right_index_count r
       = common_index_count r + length (right_only_indexes r).
Proof.
  eexists. split; [vm_compute; reflexivity |].
  apply (index_counts_add_up "left.parquet"%string
           Examples.key_one Examples.key_two ["id"%string] []).
  vm_compute. reflexivity.
Defined.




Lemma compare_data_index_report : forall name t1 t2 ic ig r res d1 d2,
    compare_data name t1 t2 ic ig = Ok r ->
    prepare name t1 t2 ic ig = Ok (res, d1, d2) ->
    (index_equals (index d1) (index d2) = true
     /\ index_match r = true
     /\ left_only_indexes r = [] /\ right_only_indexes r = [])
    \/ (index_equals (index d1) (index d2) = false
        /\ index_match r = false
        /\ left_only_indexes r
           = sorted label_leb (set_diff label_eqb (index d1) (index d2))
        /\ right_only_indexes r
           = sorted label_leb (set_diff label_eqb (index d2) (index d1))).
Proof.
  intros name t1 t2 ic ig r res d1 d2 H Hp.
  destruct (compare_data_Ok _ _ _ _ _ _ H)
    as (res0 & e1 & e2 & res' & al & Hp' & Hr & Hal).
  rewrite Hp in Hp'. inversion Hp'; subst res0 e1 e2. clear Hp'.
  destruct (prepare_report _ _ _ _ _ _ _ _ Hp) as (_ & P2 & _ & L0 & R0 & _).
  assert (Hres' : index_match r = index_match res'
                  /\ left_only_indexes r = left_only_indexes res'
                  /\ right_only_indexes r = right_only_indexes res').
  { destruct al as [[a1 a2] |]; [| subst r; repeat split; auto].
    apply compare_columns_report in Hal.
    destruct Hal as [-> | [crs ->]]; simpl; repeat split; auto. }
  destruct Hres' as (E1 & E2 & E3). rewrite E1, E2, E3.
  destruct (reconcile_indices_cases _ _ _ _ _ Hr)
    as [(Heq & _ & ->) | (Hne & -> & _)]; simpl; [left | right]; auto.
Qed.



(** X5.  A report that [compare_data] returns with an entry in
    column_results has data_match false and match false. *)
Theorem column_results_mean_no_match :
  forall name t1 t2 index_cols ignore_cols r,
    compare_data name t1 t2 index_cols ignore_cols = Ok r ->
    column_results r <> [] ->
    data_match r = false /\ match_ r = false.
Proof.
  intros name t1 t2 ic ig r H Hne.
  destruct (compare_data_Ok _ _ _ _ _ _ H)
    as (res & d1 & d2 & res' & al & Hp & Hr & Hal).
  destruct (prepare_report _ _ _ _ _ _ _ _ Hp) as (_ & _ & C0 & _).
  assert (C' : column_results res' = []).
  { destruct (reconcile_indices_cases _ _ _ _ _ Hr)
      as [(_ & _ & ->) | (_ & -> & _)]; exact C0. }
  destruct al as [[a1 a2] |]; [| subst r; congruence].
  apply compare_columns_report in Hal.
  destruct Hal as [-> | [crs ->]]; [congruence | simpl; auto].
Qed.

Lemma column_results_mean_no_match_witness :
  exists r,
    compare_data "left.parquet" Examples.arrays_left Examples.arrays_right
      [] [] = Ok r
    /\ data_match r = false /\ match_ r = false.
Proof.
  eexists. split; [vm_compute; reflexivity |].
  apply (column_results_mean_no_match "left.parquet"%string
           Examples.arrays_left Examples.arrays_right [] []).
  - vm_compute. reflexivity.
  - vm_compute. discriminate.
Defined.

(** X6.  In every report that [compare_data] returns, each side counts at
    least one row and at most the rows of its file, and the common keys are
    at most the rows of either side. *)
Theorem index_counts_are_bounded :
  forall name t1 t2 index_cols ignore_cols r,
    compare_data name t1 t2 index_cols ignore_cols = Ok r ->
    1 <= left_index_count r <= nrows t1
    /\ 1 <= right_index_count r <= nrows t2
    /\ common_index_count r <= left_index_count r
    /\ common_index_count r <= right_index_count r.
Proof.
  intros name t1 t2 ic ig r H.
  destruct (compare_data_Ok _ _ _ _ _ _ H)
    as (res & d1 & d2 & res' & al & Hp & Hr & Hal).
  destruct (prepare_lens _ _ _ _ _ _ _ _ Hp) as (N1 & N2 & B1 & B2).
  destruct (compare_data_index_fields _ _ _ _ _ _ _ _ _ H Hp)
    as (_ & _ & _ & _ & F5 & F6 & _).
  assert (Hc : common_index_count r = common_index_count res').
  { destruct al as [[a1 a2] |]; [| subst r; reflexivity].
    apply compare_columns_report in Hal.
    destruct Hal as [-> | [crs ->]]; reflexivity. }
  rewrite F5, F6, Hc. repeat split; try lia.
  - destruct (reconcile_indices_cases _ _ _ _ _ Hr)
      as [(_ & _ & ->) | (_ & -> & _)]; simpl; [lia |].
    pose proof (set_diff_inter_length (index d1) (index d2) N1). unfold len. lia.
  - destruct (reconcile_indices_cases _ _ _ _ _ Hr)
      as [(Heq & _ & ->) | (_ & -> & _)]; simpl.
    + apply index_equals_eq in Heq. unfold len. rewrite Heq. lia.
    + rewrite (set_inter_length_sym _ _ N1 N2).
      pose proof (set_diff_inter_length (index d2) (index d1) N2).
      unfold len. lia.
Qed.

Lemma index_counts_are_bounded_witness :
  exists r,
    compare_data "left.parquet" Examples.duplicate_key
      Examples.scenario_left_pcodes ["id"%string] [] = Ok r
    /\ 1 <= left_index_count r <= nrows Examples.duplicate_key
    /\ 1 <= right_index_count r <= nrows Examples.scenario_left_pcodes
    /\ common_index_count r <= left_index_count r
    /\ common_index_count r <= right_index_count r.
Proof.
  eexists. split; [vm_compute; reflexivity |].
  apply (index_counts_are_bounded "left.parquet"%string
           Examples.duplicate_key Examples.scenario_left_pcodes
           ["id"%string] []).
  vm_compute. reflexivity.
Defined.

(** ** What the comparator returns *)

Lemma index_where_In : forall (p : cell -> bool) s k,
    NoDup (sindex s) -> length (svalues s) = length (sindex s) ->
    (In k (index_where p s)
     <-> exists i, i < length (sindex s) /\ k = nth i (sindex s) []
                   /\ p (nth i (svalues s) CNull) = true).
Proof.
  intros p s k Hnd Hlen. split.
  - intro Hin.
    assert (Hk : In k (sindex s)).
    { unfold index_where in Hin. apply in_map_iff in Hin.
      destruct Hin as ([k' c] & <- & Hin). apply filter_In in Hin.
      destruct Hin as [Hin _]. eapply in_combine_l. exact Hin. }
    destruct (In_nth _ _ [] Hk) as (i & Hi & Hn). subst k.
    exists i. split; [exact Hi |]. split; [reflexivity |].
    apply (index_where_nth p s i Hnd Hlen Hi). exact Hin.
  - intros (i & Hi & -> & Hp). apply (index_where_nth p s i Hnd Hlen Hi).
    exact Hp.
Qed.






Lemma mixed_aligned : aligned Examples.mixed_left Examples.mixed_right.
Proof.
  unfold aligned. simpl. repeat split.
  repeat constructor; simpl; intros H;
    repeat (destruct H as [H | H]; try discriminate H); exact H.
Qed.


Lemma index_where_incl : forall p s k,
    In k (index_where p s) -> In k (sindex s).
Proof.
  intros p s k Hin. unfold index_where in Hin. apply in_map_iff in Hin.
  destruct Hin as ([k' c] & <- & Hin). apply filter_In in Hin.
  destruct Hin as [Hin _]. eapply in_combine_l. exact Hin.
Qed.

Lemma series_loc_total : forall s ids,
    (forall k, In k ids -> In k (sindex s)) ->
    exists xs, series_loc s ids = Ok xs /\ length xs = length ids.
Proof.
  intros s ids. unfold series_loc.
  induction ids as [| k ids IH]; intros Hin; simpl.
  - exists []. auto.
  - destruct (IH (fun k' Hk' => Hin k' (or_intror Hk'))) as (xs & -> & Hl).
    unfold series_get at 1.
    destruct (index_of_In label_eqb label_eqb_eq k (sindex s)
                (Hin k (or_introl eq_refl))) as [i ->].
    simpl. eexists. split; [reflexivity |]. simpl. rewrite Hl. reflexivity.
Qed.

(** X8.  On two aligned columns the comparator returns a list of labels as
    soon as one label is non-null on both sides; when no label is non-null
    on both sides it raises ValueError (from [np.vectorize] on empty
    input), whatever the nulls. *)
Theorem comparator_needs_a_common_non_null_label :
  forall s1 s2,
    aligned s1 s2 ->
    ((exists i, i < length (sindex s1)
                /\ is_null (nth i (svalues s1) CNull) = false
                /\ is_null (nth i (svalues s2) CNull) = false) ->
     exists idx, series_nonequal_index s1 s2 = Ok idx)
    /\ ((forall i, i < length (sindex s1) ->
                   is_null (nth i (svalues s1) CNull) = true
                   \/ is_null (nth i (svalues s2) CNull) = true) ->
        series_nonequal_index s1 s2 = Raise ValueError).
Proof.
  intros s1 s2 (Hix & Hnd & L1 & L2).
  assert (Hnd2 : NoDup (sindex s2)) by (rewrite <- Hix; exact Hnd).
  set (nn1 := index_where (fun c => negb (is_null c)) s1).
  set (nn2 := index_where (fun c => negb (is_null c)) s2).
  destruct (series_loc_total s1 (set_inter label_eqb nn1 nn2))
    as (xs & M1 & X1).
  { intros k Hk. apply (set_inter_In label_eqb label_eqb_eq) in Hk.
    eapply index_where_incl. exact (proj1 Hk). }
  destruct (series_loc_total s2 (set_inter label_eqb nn1 nn2))
    as (ys & M2 & X2).
  { intros k Hk. apply (set_inter_In label_eqb label_eqb_eq) in Hk.
    eapply index_where_incl. exact (proj2 Hk). }
  unfold series_nonequal_index. fold nn1 nn2. rewrite M1. simpl.
  rewrite M2. simpl. split.
  - intros (i & Hi & P1 & P2).
    assert (Hin : In (nth i (sindex s1) []) (set_inter label_eqb nn1 nn2)).
    { apply (set_inter_In label_eqb label_eqb_eq). split.
      - apply (index_where_In _ s1 _ Hnd L1). exists i. rewrite P1. auto.
      - apply (index_where_In _ s2 _ Hnd2 L2). exists i. rewrite <- Hix, P2.
        auto. }
    destruct (set_inter label_eqb nn1 nn2) as [| k ks]; [contradiction |].
    destruct xs as [| x xs]; [discriminate |].
    destruct ys as [| y ys]; [discriminate |].
    simpl. eexists. reflexivity.
  - intros Hall.
    destruct (set_inter label_eqb nn1 nn2) as [| k ks] eqn:Ei.
    + destruct xs; [reflexivity | discriminate].
    + exfalso.
      assert (Hk : In k (set_inter label_eqb nn1 nn2))
        by (rewrite Ei; left; reflexivity).
      apply (set_inter_In label_eqb label_eqb_eq) in Hk.
      destruct Hk as [K1 K2].
      apply (index_where_In _ s1 _ Hnd L1) in K1.
      apply (index_where_In _ s2 _ Hnd2 L2) in K2.
      destruct K1 as (i & Hi & -> & P1). destruct K2 as (j & Hj & Hij & P2).
      rewrite <- Hix in Hj, Hij.
      apply (proj1 (NoDup_nth (sindex s1) []) Hnd i j Hi Hj) in Hij. subst j.
      apply negb_true_iff in P1, P2. destruct (Hall i Hi); congruence.
Qed.

Lemma comparator_needs_a_common_non_null_label_witness :
  (exists idx,
     series_nonequal_index Examples.mixed_left Examples.mixed_right = Ok idx)
  /\ series_nonequal_index Examples.all_null Examples.one_value
     = Raise ValueError.
Proof.
  split.
  - apply (comparator_needs_a_common_non_null_label
             Examples.mixed_left Examples.mixed_right mixed_aligned).
    exists 1. simpl. repeat split. lia.
  - apply (comparator_needs_a_common_non_null_label
             Examples.all_null Examples.one_value).
    + unfold aligned. simpl. repeat split. repeat constructor. simpl. tauto.
    + simpl. intros i Hi. assert (i = 0) by lia. subst i. left. reflexivity.
Defined.

(** ** The entries of column_results *)









Lemma RangeIndex_length : forall n, length (RangeIndex n) = n.
Proof. intro n. unfold RangeIndex. rewrite length_map, length_seq. reflexivity. Qed.



(** ** The relative-mismatch values *)

Lemma abs_diff_int64 : forall l r,
    in_int64 l -> in_int64 r ->
    ((Z.abs (l - r) < 2 ^ 63)%Z ->
     abs_diff (Wrapping 64) l r = Z.abs (l - r))
    /\ (Z.abs (l - r) = (2 ^ 63)%Z ->
        abs_diff (Wrapping 64) l r = (- 2 ^ 63)%Z)
    /\ ((2 ^ 63 < Z.abs (l - r))%Z ->
        abs_diff (Wrapping 64) l r = (2 ^ 64 - Z.abs (l - r))%Z).
Proof.
  intros l r [Hl1 Hl2] [Hr1 Hr2]. unfold abs_diff, wrap.
  change (2 ^ (64 - 1))%Z with 9223372036854775808%Z.
  change (2 ^ 64)%Z with 18446744073709551616%Z.
  change (2 ^ 63)%Z with 9223372036854775808%Z in *.
  repeat split; intro H; Z.div_mod_to_equations; lia.
Qed.

Lemma abs_diff_int64_nonzero : forall l r,
    in_int64 l -> in_int64 r -> l <> r -> abs_diff (Wrapping 64) l r <> 0%Z.
Proof.
  intros l r Hl Hr Hne.
  destruct (abs_diff_int64 l r Hl Hr) as (A1 & A2 & A3).
  change (2 ^ 63)%Z with 9223372036854775808%Z in *.
  change (2 ^ 64)%Z with 18446744073709551616%Z in *.
  destruct Hl as [Hl1 Hl2], Hr as [Hr1 Hr2].
  change (2 ^ 63)%Z with 9223372036854775808%Z in *.
  destruct (Z.lt_trichotomy (Z.abs (l - r)) 9223372036854775808)
    as [H | [H | H]].
  - rewrite (A1 H). lia.
  - rewrite (A2 H). lia.
  - rewrite (A3 H). lia.
Qed.

Lemma pct_values_closed_form : forall ls rs,
    length ls = length rs -> Forall in_int64 ls -> Forall in_int64 rs ->
    exists values,
      mapM (fun lr => pct_cell (Wrapping 64) (fst lr) (snd lr))
           (combine (map (fun z => CVal (SInt z)) ls)
                    (map (fun z => CVal (SInt z)) rs)) = Ok values
      /\ where_zero
           (map (fun lr => Np.array_equal (fst lr) (snd lr))
                (combine (map (fun z => CVal (SInt z)) ls)
                         (map (fun z => CVal (SInt z)) rs)))
           values
         = map (fun lr => relative_mismatch (fst lr) (snd lr)) (combine ls rs).
Proof.
  induction ls as [| l ls IH]; intros [| r rs] Hlen Fl Fr; simpl in Hlen;
    try discriminate.
  - exists []. split; reflexivity.
  - inversion Fl as [| ? ? Hl Fl']; inversion Fr as [| ? ? Hr Fr']; subst.
    destruct (IH rs ltac:(lia) Fl' Fr') as (values & Hv & Hw).
    cbn [map combine mapM fst snd]. unfold pct_cell at 1.
    cbv zeta. unfold where_zero in *.
    destruct (l =? 0)%Z eqn:E0.
    + cbn [bind]. rewrite Hv. cbn [bind].
      eexists. split; [reflexivity |].
      cbn [map combine fst snd]. rewrite Hw. f_equal.
      unfold relative_mismatch. rewrite E0.
      change (Np.array_equal (CVal (SInt l)) (CVal (SInt r)))
        with (l =? r)%Z.
      destruct (l =? r)%Z eqn:Elr; [reflexivity |].
      apply Z.eqb_neq in Elr.
      pose proof (abs_diff_int64_nonzero l r Hl Hr Elr) as Hn.
      apply Z.eqb_neq in Hn. rewrite Hn. reflexivity.
    + cbn [bind]. rewrite Hv. cbn [bind].
      eexists. split; [reflexivity |].
      cbn [map combine fst snd]. rewrite Hw. f_equal.
      unfold relative_mismatch. rewrite E0.
      change (Np.array_equal (CVal (SInt l)) (CVal (SInt r)))
        with (l =? r)%Z.
      destruct (l =? r)%Z; reflexivity.
Qed.

Lemma relative_mismatch_sign : forall l n : Z,
    l <> 0%Z -> (0 < n)%Z ->
    ((0 < l)%Z -> (0 < Qred (inject_Z n / inject_Z l * inject_Z 100))%Q)
    /\ ((l < 0)%Z -> (Qred (inject_Z n / inject_Z l * inject_Z 100) < 0)%Q).
Proof.
  intros l n E0 Ha.
  set (x := (inject_Z n / inject_Z l * inject_Z 100)%Q).
  assert (Hx : (Qred x == x)%Q) by apply Qred_correct.
  split; intro Hl.
  - apply (Qlt_le_trans _ x); [| apply Qle_lteq; right; symmetry; exact Hx].
    unfold x. destruct l as [| p | p]; try lia.
    unfold Qlt, Qdiv, Qmult, Qinv, inject_Z. simpl. lia.
  - apply (Qle_lt_trans _ x); [apply Qle_lteq; right; exact Hx |].
    unfold x. destruct l as [| p | p]; try lia.
    unfold Qlt, Qdiv, Qmult, Qinv, inject_Z. simpl. lia.
Qed.

(** X11.  On two int64 columns with the same labels and the same length, the
    expression of lines 210-214 never raises.  Its value at a row is 0 where
    left equals right, an infinity where left is 0 and right is not, and
    otherwise n / left * 100, where n is abs(left - right) as int64
    arithmetic computes it: the absolute difference itself when that is
    below 2^63, and then the value is positive for a positive left value and
    negative for a negative one; -2^63 when the absolute difference is 2^63;
    and 2^64 minus the absolute difference when that is larger. *)
Theorem relative_mismatch_of_integer_columns :
  forall idx ls rs,
    length ls = length rs -> Forall in_int64 ls -> Forall in_int64 rs ->
    exists cond values,
      series_eq (int_series idx Int64 ls) (int_series idx Int64 rs) = Ok cond
      /\ calculate_pct_mismatch (int_series idx Int64 ls)
           (int_series idx Int64 rs)
         = Ok values
      /\ where_zero cond values
         = map (fun lr => relative_mismatch (fst lr) (snd lr)) (combine ls rs)
      /\ forall l r,
           in_int64 l -> in_int64 r ->
           relative_mismatch l l = Fin 0%Q
           /\ (l <> r -> l = 0%Z -> relative_mismatch l r = Inf)
           /\ (l <> r -> l <> 0%Z ->
               exists n q,
                 relative_mismatch l r = Fin q
                 /\ (q == inject_Z n / inject_Z l * inject_Z 100)%Q
                 /\ ((Z.abs (l - r) < 2 ^ 63)%Z ->
                     n = Z.abs (l - r)
                     /\ ((0 < l)%Z -> (0 < q)%Q)
                     /\ ((l < 0)%Z -> (q < 0)%Q))
                 /\ (Z.abs (l - r) = (2 ^ 63)%Z -> n = (- 2 ^ 63)%Z)
                 /\ ((2 ^ 63 < Z.abs (l - r))%Z ->
                     n = (2 ^ 64 - Z.abs (l - r))%Z)).
Proof.
  intros idx ls rs Hlen Fl Fr.
  destruct (pct_values_closed_form ls rs Hlen Fl Fr) as (values & Hv & Hw).
  eexists. exists values. split; [| split; [exact Hv | split; [exact Hw |]]].
  - unfold series_eq, int_series. simpl.
    replace (index_equals idx idx) with true
      by (symmetry; apply index_equals_eq; reflexivity).
    reflexivity.
  - intros l r Hl Hr. split; [| split].
    + unfold relative_mismatch. rewrite Z.eqb_refl. reflexivity.
    + intros Hne ->. unfold relative_mismatch.
      destruct (0 =? r)%Z eqn:E; [apply Z.eqb_eq in E; congruence | reflexivity].
    + intros Hne H0.
      destruct (abs_diff_int64 l r Hl Hr) as (A1 & A2 & A3).
      exists (abs_diff (Wrapping 64) l r). eexists.
      split; [| split; [apply Qred_correct |]].
      * unfold relative_mismatch.
        replace (l =? r)%Z with false by (symmetry; apply Z.eqb_neq; exact Hne).
        replace (l =? 0)%Z with false by (symmetry; apply Z.eqb_neq; exact H0).
        reflexivity.
      * split; [| split; [exact A2 | exact A3]].
        intro Hs. split; [exact (A1 Hs) |]. rewrite (A1 Hs).
        apply relative_mismatch_sign; [exact H0 | lia].
Qed.

Lemma relative_mismatch_of_integer_columns_witness :
  exists cond values,
    series_eq
      (int_series [[SInt 0%Z]; [SInt 1%Z]; [SInt 2%Z]; [SInt 3%Z]] Int64
         [10; 0; -4; 4611686018427387904]%Z)
      (int_series [[SInt 0%Z]; [SInt 1%Z]; [SInt 2%Z]; [SInt 3%Z]] Int64
         [10; 3; -2; -4611686018427387904]%Z) = Ok cond
    /\ calculate_pct_mismatch
         (int_series [[SInt 0%Z]; [SInt 1%Z]; [SInt 2%Z]; [SInt 3%Z]] Int64
            [10; 0; -4; 4611686018427387904]%Z)
         (int_series [[SInt 0%Z]; [SInt 1%Z]; [SInt 2%Z]; [SInt 3%Z]] Int64
            [10; 3; -2; -4611686018427387904]%Z)
       = Ok values
    /\ where_zero cond values
       = [Fin 0%Q; Inf; Fin (-50 # 1)%Q; Fin (-200 # 1)%Q].
Proof.
  assert (F1 : Forall in_int64 [10; 0; -4; 4611686018427387904]%Z)
    by (repeat constructor; vm_compute; discriminate).
  assert (F2 : Forall in_int64 [10; 3; -2; -4611686018427387904]%Z)
    by (repeat constructor; vm_compute; discriminate).
  destruct (relative_mismatch_of_integer_columns
              [[SInt 0%Z]; [SInt 1%Z]; [SInt 2%Z]; [SInt 3%Z]]
              [10; 0; -4; 4611686018427387904]%Z
              [10; 3; -2; -4611686018427387904]%Z eq_refl F1 F2)
    as (cond & values & H1 & H2 & H3 & _).
  exists cond, values. split; [exact H1 |]. split; [exact H2 |].
  rewrite H3. vm_compute. reflexivity.
Defined.

(** ** Key columns that a table does not have *)

Lemma lookup_all_None : forall cs cols c,
    In c cs -> ~ In c (map fst cols) -> lookup_all cs cols = None.
Proof.
  induction cs as [| c' cs IH]; intros cols c Hin Hnot; [contradiction |].
  simpl. destruct Hin as [-> | Hin].
  - destruct (lookup_column c cols) as [col |] eqn:E; [| reflexivity].
    exfalso. apply Hnot. eapply lookup_column_In. exact E.
  - rewrite (IH cols c Hin Hnot). destruct (lookup_column c' cols); reflexivity.
Qed.

Lemma index_frame_missing_key : forall ic df c,
    In c ic -> ~ In c (column_names df) -> index_frame ic df = Ok df.
Proof.
  intros ic df c Hin Hnot. unfold index_frame, sort_values.
  rewrite (lookup_all_None ic (columns df) c Hin Hnot). reflexivity.
Qed.

(** X12.  Key columns of which each table lacks at least one do not key
    either table (the KeyError is caught for both): the call behaves as the
    call without key columns, whether it returns or raises. *)
Theorem absent_key_columns_are_ignored :
  forall name t1 t2 index_cols ignore_cols,
    (exists c, In c index_cols /\ ~ In c (map fst (tcolumns t1))) ->
    (exists c, In c index_cols /\ ~ In c (map fst (tcolumns t2))) ->
    compare_data name t1 t2 index_cols ignore_cols
    = compare_data name t1 t2 [] ignore_cols.
Proof.
  intros name t1 t2 ic ig (c1 & Hc1 & Hn1) (c2 & Hc2 & Hn2).
  unfold compare_data. f_equal. unfold prepare.
  destruct (prenormalize (loaded t1) (loaded t2)) as [[p1 p2] | e] eqn:Hp;
    [| reflexivity].
  simpl. apply prenormalize_sides in Hp. destruct Hp as [Hp1 Hp2].
  apply prenormalize_side_inv in Hp1, Hp2.
  destruct Hp1 as (_ & _ & C1 & X1), Hp2 as (_ & _ & C2 & X2).
  assert (K : forall t p c,
             column_names p = column_names (loaded t) ->
             index p = index (loaded t) ->
             In c ic -> ~ In c (map fst (tcolumns t)) ->
             index_frame ic (drop_ignored ig p) = Ok (drop_ignored ig p)
             /\ any (duplicated_all (index (drop_ignored ig p))) = false).
  { intros t p c C X Hc Hn. split.
    - apply (index_frame_missing_key ic _ c Hc). intro Hin.
      apply drop_ignored_names in Hin. rewrite C in Hin. exact (Hn Hin).
    - apply NoDup_no_duplicates. rewrite drop_ignored_index, X.
      apply RangeIndex_NoDup. }
  destruct (K t1 p1 c1 C1 X1 Hc1 Hn1) as [K1 D1].
  destruct (K t2 p2 c2 C2 X2 Hc2 Hn2) as [K2 D2].
  destruct ic as [| c cs]; [reflexivity |].
  unfold index_tables. rewrite K1. simpl. rewrite K2. simpl.
  unfold validate_indices. rewrite D1, D2. reflexivity.
Qed.

Lemma absent_key_columns_are_ignored_witness :
  compare_data "left.parquet" Examples.arrays_left Examples.arrays_right
    ["id"%string] []
  = compare_data "left.parquet" Examples.arrays_left Examples.arrays_right
      [] [].
Proof.
  apply absent_key_columns_are_ignored;
    exists "id"%string; (split; [left; reflexivity |]);
    simpl; intros [H | [H | [H | []]]]; discriminate H.
Defined.

(** ** The column sets *)

Lemma drop_ignored_same_names : forall ig a b,
    column_names a = column_names b ->
    column_names (drop_ignored ig a) = column_names (drop_ignored ig b).
Proof.
  intros ig a b H. unfold drop_ignored. destruct ig as [| c cs]; [exact H |].
  rewrite H. destruct (issubset _ _ _); [| exact H].
  rewrite !drop_names, H. reflexivity.
Qed.

Lemma set_eqb_iff : forall a b : list string,
    set_eqb String.eqb a b = true <-> (forall c, In c a <-> In c b).
Proof.
  intros a b. unfold set_eqb.
  rewrite andb_true_iff, !(issubset_incl String.eqb String.eqb_eq).
  unfold incl. split.
  - intros [H1 H2] c. split; auto.
  - intros H. split; intros c Hc; apply H; exact Hc.
Qed.

(** X13.  In every report that [compare_data] returns, the two only-columns
    fields are unset when the two tables have the same column names after
    the ignore filter; otherwise they list, in ascending order, exactly the
    columns that the left table has and the right lacks, and conversely. *)
Theorem only_columns_are_the_exclusive_columns :
  forall name t1 t2 index_cols ignore_cols r,
    compare_data name t1 t2 index_cols ignore_cols = Ok r ->
    let n1 := column_names (drop_ignored ignore_cols (loaded t1)) in
    let n2 := column_names (drop_ignored ignore_cols (loaded t2)) in
    ((forall c, In c n1 <-> In c n2) ->
     left_only_columns r = None /\ right_only_columns r = None)
    /\ (~ (forall c, In c n1 <-> In c n2) ->
        exists l rt,
          left_only_columns r = Some l /\ right_only_columns r = Some rt
          /\ (forall c, In c l <-> In c n1 /\ ~ In c n2)
          /\ (forall c, In c rt <-> In c n2 /\ ~ In c n1)
          /\ Sorted (leb_rel String.leb) l
          /\ Sorted (leb_rel String.leb) rt).
Proof.
  intros name t1 t2 ic ig r H n1 n2.
  destruct (compare_data_Ok _ _ _ _ _ _ H)
    as (res & d1 & d2 & res' & al & Hp & Hr & Hal).
  assert (Hfin : left_only_columns r = left_only_columns res
                 /\ right_only_columns r = right_only_columns res).
  { assert (Q : left_only_columns res' = left_only_columns res
                /\ right_only_columns res' = right_only_columns res).
    { destruct (reconcile_indices_cases _ _ _ _ _ Hr)
        as [(_ & _ & ->) | (_ & -> & _)]; simpl; auto. }
    destruct al as [[a1 a2] |]; [| subst r; exact Q].
    apply compare_columns_report in Hal.
    destruct Hal as [-> | [crs ->]]; simpl; exact Q. }
  destruct Hfin as [-> ->].
  destruct (prepare_Ok _ _ _ _ _ _ _ _ Hp) as (p1 & p2 & Hpre & Hi).
  apply prenormalize_sides in Hpre. destruct Hpre as [Hp1 Hp2].
  apply prenormalize_side_inv in Hp1, Hp2.
  destruct Hp1 as (_ & _ & C1 & _), Hp2 as (_ & _ & C2 & _).
  assert (E1 : column_names (drop_ignored ig p1) = n1)
    by (apply drop_ignored_same_names; exact C1).
  assert (E2 : column_names (drop_ignored ig p2) = n2)
    by (apply drop_ignored_same_names; exact C2).
  remember (compare_column_sets (set_file_name new_CompareResult name)
              (drop_ignored ig p1) (drop_ignored ig p2)) as res0 eqn:E0.
  assert (Hsame : left_only_columns res = left_only_columns res0
                  /\ right_only_columns res = right_only_columns res0).
  { apply index_tables_Ok in Hi.
    destruct Hi as [(_ & -> & _ & _) | (_ & k1 & k2 & _ & _ & V)]; [auto |].
    destruct (validate_indices_report _ _ _ _ _ _ V)
      as (_ & _ & _ & V4 & V5 & _). auto. }
  destruct Hsame as [-> ->]. subst res0. unfold compare_column_sets.
  rewrite E1, E2.
  destruct (set_eqb String.eqb n1 n2) eqn:Es; simpl.
  - pose proof (proj1 (set_eqb_iff n1 n2) Es) as Hall.
    split; [auto | intro Hn; contradiction].
  - split.
    + intro Hall. pose proof (proj2 (set_eqb_iff n1 n2) Hall). congruence.
    + intros _. do 2 eexists. split; [reflexivity |]. split; [reflexivity |].
      split; [| split; [| split]].
      * intro c. rewrite sorted_In.
        apply (set_diff_In String.eqb String.eqb_eq).
      * intro c. rewrite sorted_In.
        apply (set_diff_In String.eqb String.eqb_eq).
      * apply sorted_Sorted, String.leb_total.
      * apply sorted_Sorted, String.leb_total.
Qed.

Lemma only_columns_are_the_exclusive_columns_witness :
  exists r l rt,
    compare_data "left.parquet" Examples.with_debug Examples.without_debug
      [] [] = Ok r
    /\ left_only_columns r = Some l /\ right_only_columns r = Some rt
    /\ (forall c, In c l
                  <-> In c (column_names (loaded Examples.with_debug))
                      /\ ~ In c (column_names (loaded Examples.without_debug)))
    /\ (forall c, In c rt
                  <-> In c (column_names (loaded Examples.without_debug))
                      /\ ~ In c (column_names (loaded Examples.with_debug))).
Proof.
  eexists.
  assert (Hrun : compare_data "left.parquet" Examples.with_debug
                   Examples.without_debug [] [] = Ok _)
    by (vm_compute; reflexivity).
  destruct (only_columns_are_the_exclusive_columns _ _ _ _ _ _ Hrun)
    as [_ Hd].
  destruct Hd as (l & rt & H1 & H2 & H3 & H4 & _).
  - intro Hall. destruct (Hall "debug"%string) as [Hx _].
    assert (Hin : In "debug"%string
                    (column_names (loaded Examples.without_debug)))
      by (apply Hx; left; reflexivity).
    simpl in Hin. destruct Hin as [Hin | [Hin | [Hin | []]]]; discriminate Hin.
  - exists l, rt. split; [exact Hrun |]. auto.
Defined.

(** ** Swapping the two tables *)

Lemma index_equals_sym : forall a b, index_equals a b = index_equals b a.
Proof.
  intros a b. destruct (index_equals a b) eqn:E1; destruct (index_equals b a) eqn:E2;
    try reflexivity.
  - apply index_equals_eq in E1. subst.
    rewrite (proj2 (index_equals_eq b b) eq_refl) in E2. discriminate.
  - apply index_equals_eq in E2. subst.
    rewrite (proj2 (index_equals_eq a a) eq_refl) in E1. discriminate.
Qed.

Lemma set_eqb_sym : forall a b : list string,
    set_eqb String.eqb a b = set_eqb String.eqb b a.
Proof. intros a b. unfold set_eqb. apply andb_comm. Qed.

Lemma prepare_swap : forall name name' t1 t2 ic ig res d1 d2,
    prepare name t1 t2 ic ig = Ok (res, d1, d2) ->
    exists res',
      prepare name' t2 t1 ic ig = Ok (res', d2, d1)
      /\ left_duplicate res' = right_duplicate res
      /\ right_duplicate res' = left_duplicate res
      /\ left_only_columns res' = right_only_columns res
      /\ right_only_columns res' = left_only_columns res.
Proof.
  intros name name' t1 t2 ic ig res d1 d2 H.
  destruct (prepare_Ok _ _ _ _ _ _ _ _ H) as (p1 & p2 & Hp & Hi).
  apply prenormalize_sides in Hp. destruct Hp as [Hp1 Hp2].
  pose proof (prenormalize_pair _ _ _ _ Hp2 Hp1) as Hswap.
  unfold prepare. rewrite Hswap. simpl.
  set (q1 := drop_ignored ig p1) in *. set (q2 := drop_ignored ig p2) in *.
  assert (H0 : forall n n',
             left_duplicate (compare_column_sets
                               (set_file_name new_CompareResult n') q2 q1)
             = right_duplicate (compare_column_sets
                                  (set_file_name new_CompareResult n) q1 q2)
             /\ right_duplicate (compare_column_sets
                                   (set_file_name new_CompareResult n') q2 q1)
                = left_duplicate (compare_column_sets
                                    (set_file_name new_CompareResult n) q1 q2)
             /\ left_only_columns (compare_column_sets
                                     (set_file_name new_CompareResult n') q2 q1)
                = right_only_columns (compare_column_sets
                                        (set_file_name new_CompareResult n)
                                        q1 q2)
             /\ right_only_columns (compare_column_sets
                                      (set_file_name new_CompareResult n')
                                      q2 q1)
                = left_only_columns (compare_column_sets
                                       (set_file_name new_CompareResult n)
                                       q1 q2)).
  { intros n n'. unfold compare_column_sets.
    rewrite (set_eqb_sym (column_names q2) (column_names q1)).
    destruct (negb _); simpl; auto. }
  specialize (H0 name name').
  apply index_tables_Ok in Hi.
  destruct Hi as [(-> & -> & -> & ->) | (Hic & k1 & k2 & K1 & K2 & V)].
  - eexists. split; [reflexivity | exact H0].
  - destruct ic as [| c cs]; [congruence |].
    unfold index_tables. rewrite K2. simpl. rewrite K1. simpl.
    destruct (validate_indices
                (compare_column_sets (set_file_name new_CompareResult name')
                   q2 q1) k2 k1) as [[res' e2] e1] eqn:V'.
    destruct (validate_indices_frames _ _ _ _ _ _ V) as [-> ->].
    destruct (validate_indices_frames _ _ _ _ _ _ V') as [-> ->].
    destruct (validate_indices_report _ _ _ _ _ _ V)
      as (_ & _ & _ & A4 & A5 & A6 & A7 & _).
    destruct (validate_indices_report _ _ _ _ _ _ V')
      as (_ & _ & _ & B4 & B5 & B6 & B7 & _).
    destruct H0 as (Z1 & Z2 & Z3 & Z4).
    exists res'. split; [reflexivity |].
    rewrite A4, A5, A6, A7, B4, B5, B6, B7, Z1, Z2, Z3, Z4. auto.
Qed.

Lemma compare_data_side_fields : forall name t1 t2 ic ig r res d1 d2,
    compare_data name t1 t2 ic ig = Ok r ->
    prepare name t1 t2 ic ig = Ok (res, d1, d2) ->
    left_only_columns r = left_only_columns res
    /\ right_only_columns r = right_only_columns res
    /\ common_index_count r
       = (if index_equals (index d1) (index d2) then len d1
          else length (set_inter label_eqb (index d1) (index d2))).
Proof.
  intros name t1 t2 ic ig r res d1 d2 H Hp.
  destruct (compare_data_Ok _ _ _ _ _ _ H)
    as (res0 & e1 & e2 & res' & al & Hp' & Hr & Hal).
  rewrite Hp in Hp'. inversion Hp'; subst res0 e1 e2. clear Hp'.
  assert (Q : left_only_columns res' = left_only_columns res
              /\ right_only_columns res' = right_only_columns res
              /\ common_index_count res'
                 = (if index_equals (index d1) (index d2) then len d1
                    else length (set_inter label_eqb (index d1) (index d2)))).
  { destruct (reconcile_indices_cases _ _ _ _ _ Hr)
      as [(-> & _ & ->) | (-> & -> & _)]; simpl; auto. }
  destruct al as [[a1 a2] |]; [| subst r; exact Q].
  apply compare_columns_report in Hal.
  destruct Hal as [-> | [crs ->]]; simpl; exact Q.
Qed.

(** X14.  If [compare_data] returns for two tables in both orders, the two
    reports mirror each other in everything the index and column-set steps
    write: the only-indexes, the row counts, the duplicate flags and the
    only-columns of one side are those of the other side in the other
    report, and common_index_count and index_match are the same. *)
Theorem swapping_the_tables_swaps_the_sides :
  forall name name' t1 t2 index_cols ignore_cols r r',
    compare_data name t1 t2 index_cols ignore_cols = Ok r ->
    compare_data name' t2 t1 index_cols ignore_cols = Ok r' ->
    left_only_indexes r = right_only_indexes r'
    /\ right_only_indexes r = left_only_indexes r'
    /\ left_index_count r = right_index_count r'
    /\ right_index_count r = left_index_count r'
    /\ common_index_count r = common_index_count r'
    /\ index_match r = index_match r'
    /\ left_duplicate r = right_duplicate r'
    /\ right_duplicate r = left_duplicate r'
    /\ left_only_columns r = right_only_columns r'
    /\ right_only_columns r = left_only_columns r'.
Proof.
  intros name name' t1 t2 ic ig r r' H H'.
  destruct (compare_data_Ok _ _ _ _ _ _ H)
    as (res & d1 & d2 & _ & _ & Hp & _).
  destruct (prepare_swap name name' _ _ _ _ _ _ _ Hp)
    as (res' & Hp' & S1 & S2 & S3 & S4).
  destruct (prepare_lens _ _ _ _ _ _ _ _ Hp) as (N1 & N2 & _).
  destruct (compare_data_index_fields _ _ _ _ _ _ _ _ _ H Hp)
    as (F1 & F2 & _ & _ & F5 & F6 & _).
  destruct (compare_data_index_fields _ _ _ _ _ _ _ _ _ H' Hp')
    as (G1 & G2 & _ & _ & G5 & G6 & _).
  destruct (compare_data_side_fields _ _ _ _ _ _ _ _ _ H Hp) as (C1 & C2 & C3).
  destruct (compare_data_side_fields _ _ _ _ _ _ _ _ _ H' Hp')
    as (D1 & D2 & D3).
  rewrite F1, F2, F5, F6, G1, G2, G5, G6, C1, C2, C3, D1, D2, D3.
  rewrite S1, S2, S3, S4.
  rewrite (index_equals_sym (index d2) (index d1)).
  rewrite (set_inter_length_sym (index d2) (index d1) N2 N1).
  assert (Hlen : index_equals (index d1) (index d2) = true -> len d1 = len d2).
  { intro E. apply index_equals_eq in E. unfold len. rewrite E. reflexivity. }
  destruct (compare_data_index_report _ _ _ _ _ _ _ _ _ H Hp)
    as [(E & -> & -> & ->) | (E & -> & -> & ->)];
    destruct (compare_data_index_report _ _ _ _ _ _ _ _ _ H' Hp')
      as [(E' & -> & -> & ->) | (E' & -> & -> & ->)];
    rewrite (index_equals_sym (index d2) (index d1)) in E';
    try congruence; rewrite E; repeat split; auto.
Qed.

Lemma swapping_the_tables_swaps_the_sides_witness :
  exists r r',
    compare_data "a.parquet" Examples.scenario_left_pcodes
      Examples.duplicate_key ["id"%string] [] = Ok r
    /\ compare_data "b.parquet" Examples.duplicate_key
         Examples.scenario_left_pcodes ["id"%string] [] = Ok r'
    /\ left_only_indexes r = right_only_indexes r'
    /\ right_only_indexes r = left_only_indexes r'
    /\ left_index_count r = right_index_count r'
    /\ right_index_count r = left_index_count r'
    /\ common_index_count r = common_index_count r'
    /\ index_match r = index_match r'
    /\ left_duplicate r = right_duplicate r'
    /\ right_duplicate r = left_duplicate r'
    /\ left_only_columns r = right_only_columns r'
    /\ right_only_columns r = left_only_columns r'.
Proof.
  do 2 eexists. split; [vm_compute; reflexivity |].
  split; [vm_compute; reflexivity |].
  apply (swapping_the_tables_swaps_the_sides "a.parquet"%string
           "b.parquet"%string Examples.scenario_left_pcodes
           Examples.duplicate_key ["id"%string] []);
    vm_compute; reflexivity.
Defined.

(** ** The folder comparison *)

Lemma dict_get_set_same {V : Type} : forall k (v : V) d,
    dict_get k (dict_set k v d) = Some v.
Proof.
  intros k v d. induction d as [| [k' v'] rest IH]; simpl.
  - rewrite String.eqb_refl. reflexivity.
  - destruct (String.eqb k k') eqn:E; simpl; rewrite ?String.eqb_refl, ?E; auto.
Qed.

Lemma dict_get_set_other {V : Type} : forall k k' (v : V) d,
    k' <> k -> dict_get k' (dict_set k v d) = dict_get k' d.
Proof.
  intros k k' v d Hne. apply String.eqb_neq in Hne.
  induction d as [| [k0 v0] rest IH]; simpl.
  - rewrite Hne. reflexivity.
  - destruct (String.eqb k k0) eqn:E; simpl.
    + apply String.eqb_eq in E. subst k0. rewrite Hne. reflexivity.
    + rewrite IH. reflexivity.
Qed.

Lemma dict_set_keys {V : Type} : forall k (v : V) d,
    map fst (dict_set k v d)
    = if mem String.eqb k (map fst d) then map fst d else map fst d ++ [k].
Proof.
  intros k v d. induction d as [| [k' v'] rest IH]; simpl; [reflexivity |].
  destruct (String.eqb k k') eqn:E; simpl.
  - apply String.eqb_eq in E. subst. reflexivity.
  - rewrite IH. unfold mem. destruct (existsb _ _); reflexivity.
Qed.

Lemma dict_set_values {V : Type} (P : V -> Prop) : forall k (v : V) d,
    P v -> Forall P (map snd d) -> Forall P (map snd (dict_set k v d)).
Proof.
  intros k v d Hv. induction d as [| [k' v'] rest IH]; simpl; intros H.
  - constructor; [exact Hv | constructor].
  - inversion H; subst. destruct (String.eqb k k'); simpl; constructor; auto.
Qed.

Section FolderFacts.
Variable path_exists : string -> bool.
Variable compare_files : string -> string -> bool.

Lemma fold_keys : forall files acc,
    NoDup (map fst acc) ->
    NoDup
      (map fst
         (fold_left (Folders.record_pair path_exists compare_files) files acc))
    /\ (forall f,
          In f (map fst
                  (fold_left (Folders.record_pair path_exists compare_files)
                     files acc))
          <-> In f (map fst acc) \/ In f (map fst files))
    /\ length
         (fold_left (Folders.record_pair path_exists compare_files) files acc)
       <= length acc + length files.
Proof.
  induction files as [| p files IH]; intros acc Hnd; simpl.
  - split; [exact Hnd |]. split; [tauto | lia].
  - set (acc' := Folders.record_pair path_exists compare_files acc p).
    assert (Hk : map fst acc'
                 = if mem String.eqb (fst p) (map fst acc)
                   then map fst acc else map fst acc ++ [fst p])
      by apply dict_set_keys.
    assert (Hnd' : NoDup (map fst acc')).
    { rewrite Hk. destruct (mem String.eqb (fst p) (map fst acc)) eqn:E;
        [exact Hnd |].
      apply (mem_false String.eqb String.eqb_eq) in E.
      apply NoDup_app; [exact Hnd | repeat constructor; simpl; tauto |].
      intros a Ha [<- | []]. contradiction. }
    destruct (IH acc' Hnd') as (I1 & I2 & I3).
    split; [exact I1 |]. split.
    + intro f. rewrite I2, Hk.
      destruct (mem String.eqb (fst p) (map fst acc)) eqn:E.
      * apply (mem_In String.eqb String.eqb_eq) in E.
        split; [tauto |]. intros [H | [<- | H]]; auto.
      * rewrite in_app_iff. simpl. tauto.
    + assert (Hl : length acc' <= S (length acc)).
      { rewrite <- (length_map fst acc'), Hk, <- (length_map fst acc).
        destruct (mem _ _ _); [lia |]. rewrite length_app. simpl. lia. }
      lia.
Qed.

Lemma fold_values : forall (P : string -> Prop) files acc,
    (forall f1 f2, P (Folders.status_of path_exists compare_files f1 f2)) ->
    Forall P (map snd acc) ->
    Forall P
      (map snd
         (fold_left (Folders.record_pair path_exists compare_files) files acc)).
Proof.
  intros P files. induction files as [| p files IH]; intros acc HP H; simpl;
    [exact H |].
  apply IH; [exact HP |]. apply dict_set_values; [apply HP | exact H].
Qed.

Lemma fold_untouched : forall files acc f,
    ~ In f (map fst files) ->
    dict_get f
      (fold_left (Folders.record_pair path_exists compare_files) files acc)
    = dict_get f acc.
Proof.
  induction files as [| p files IH]; intros acc f Hn; simpl; [reflexivity |].
  simpl in Hn. rewrite IH by tauto. apply dict_get_set_other.
  intro E. apply Hn. left. symmetry. exact E.
Qed.

Lemma fold_status : forall files acc f1 f2,
    NoDup (map fst files) -> In (f1, f2) files ->
    dict_get f1
      (fold_left (Folders.record_pair path_exists compare_files) files acc)
    = Some (Folders.status_of path_exists compare_files f1 f2).
Proof.
  induction files as [| p files IH]; intros acc f1 f2 Hnd Hin;
    [contradiction |].
  simpl in Hnd. inversion Hnd as [| ? ? Hnin Hnd']; subst. simpl.
  destruct Hin as [-> | Hin].
  - rewrite fold_untouched by exact Hnin. apply dict_get_set_same.
  - apply IH; assumption.
Qed.

Lemma fold_length_NoDup : forall files acc,
    NoDup (map fst acc) -> NoDup (map fst files) ->
    (forall f, In f (map fst files) -> ~ In f (map fst acc)) ->
    length
      (fold_left (Folders.record_pair path_exists compare_files) files acc)
    = length acc + length files.
Proof.
  induction files as [| p files IH]; intros acc Ha Hf Hd; simpl; [lia |].
  simpl in Hf. inversion Hf as [| ? ? Hnin Hf']; subst.
  set (acc' := Folders.record_pair path_exists compare_files acc p).
  assert (Hk : map fst acc' = map fst acc ++ [fst p]).
  { unfold acc', Folders.record_pair. rewrite dict_set_keys.
    replace (mem String.eqb (fst p) (map fst acc)) with false; [reflexivity |].
    symmetry. apply (mem_false String.eqb String.eqb_eq). apply Hd. left.
    reflexivity. }
  rewrite IH.
  - rewrite <- (length_map fst acc'), Hk, length_app, length_map.
    simpl. lia.
  - rewrite Hk.
    apply NoDup_app; [exact Ha | repeat constructor; simpl; tauto |].
    intros a Ha' [<- | []].
    apply (Hd (fst p)); [left; reflexivity | exact Ha'].
  - exact Hf'.
  - intros f Hin. rewrite Hk, in_app_iff. simpl. intros [H | [<- | []]].
    + apply (Hd f); [right; exact Hin | exact H].
    + contradiction.
Qed.

Lemma count_three_statuses : forall result : list (string * string),
    Forall
      (fun v => v = "Match" \/ v = "Not match" \/ v = "File not found")%string
      (map snd result) ->
    Folders.count_status "Match" result
    + Folders.count_status "Not match" result
    + Folders.count_status "File not found" result
    = length result.
Proof.
  unfold Folders.count_status. intros entries.
  induction entries as [| [k v] rest IH]; intros H; simpl; [reflexivity |].
  inversion H as [| ? ? Hv Hrest]; subst. specialize (IH Hrest).
  simpl in Hv. destruct Hv as [-> | [-> | ->]]; simpl; lia.
Qed.

Lemma status_of_cases : forall f1 f2,
    (Folders.status_of path_exists compare_files f1 f2 = "Match"
     \/ Folders.status_of path_exists compare_files f1 f2 = "Not match"
     \/ Folders.status_of path_exists compare_files f1 f2
        = "File not found")%string.
Proof.
  intros f1 f2. unfold Folders.status_of.
  destruct (path_exists f2); [destruct (compare_files f1 f2) |]; auto.
Qed.

Lemma pairs_of_keys : forall folder1 folder2 walk f,
    In f (map fst (Folders.pairs_of folder1 folder2 walk))
    <-> exists root files file,
          In (root, files) walk /\ In file files
          /\ Folders.endswith file ".parquet" = true
          /\ f = Folders.join root file.
Proof.
  intros folder1 folder2 walk f. unfold Folders.pairs_of.
  rewrite in_map_iff. split.
  - intros ([f1 f2] & <- & Hin). apply in_flat_map in Hin.
    destruct Hin as ([root files] & Hw & Hin). apply in_map_iff in Hin.
    destruct Hin as (file & Hp & Hf). apply filter_In in Hf.
    inversion Hp; subst. exists root, files, file. simpl. tauto.
  - intros (root & files & file & Hw & Hf & He & ->).
    exists (Folders.join root file,
            Folders.join (Folders.replace folder1 folder2 root) file).
    split; [reflexivity |]. apply in_flat_map. exists (root, files).
    split; [exact Hw |]. apply in_map_iff. exists file.
    split; [reflexivity |]. apply filter_In. auto.
Qed.

(** X15.  The dictionary that [compare_folders] returns has exactly one
    entry for every path [join(root, file)] of a file whose name ends in
    .parquet in a directory that the walk of folder1 yields, and no other
    entry. *)
Theorem one_entry_per_parquet_file :
  forall folder1 folder2 walk,
    NoDup (map fst (Folders.compare_folders path_exists compare_files
                      folder1 folder2 walk))
    /\ forall f,
         In f (map fst (Folders.compare_folders path_exists compare_files
                          folder1 folder2 walk))
         <-> exists root files file,
               In (root, files) walk /\ In file files
               /\ Folders.endswith file ".parquet" = true
               /\ f = Folders.join root file.
Proof.
  intros folder1 folder2 walk.
  unfold Folders.compare_folders, Folders.compare_pairs.
  destruct (fold_keys (Folders.pairs_of folder1 folder2 walk) [] (NoDup_nil _))
    as (K1 & K2 & _).
  split; [exact K1 |]. intro f.
  change (In f (map fst
                  (fold_left (Folders.record_pair path_exists compare_files)
                     (Folders.pairs_of folder1 folder2 walk) []))
          <-> exists root files file,
                In (root, files) walk /\ In file files
                /\ Folders.endswith file ".parquet" = true
                /\ f = Folders.join root file).
  rewrite K2. simpl.
  pose proof (pairs_of_keys folder1 folder2 walk f) as Hp. tauto.
Qed.

(** X16.  The three counts of the summary add up to the number of entries of
    the returned dictionary, which is at most the number of file pairs
    printed as the total. *)
Theorem summary_counts_add_up :
  forall folder1 folder2 walk,
    Folders.count_status "Match"
      (Folders.compare_folders path_exists compare_files folder1 folder2 walk)
    + Folders.count_status "Not match"
        (Folders.compare_folders path_exists compare_files folder1 folder2 walk)
    + Folders.count_status "File not found"
        (Folders.compare_folders path_exists compare_files folder1 folder2 walk)
    = length (Folders.compare_folders path_exists compare_files
                folder1 folder2 walk)
    /\ length (Folders.compare_folders path_exists compare_files
                 folder1 folder2 walk)
       <= length (Folders.pairs_of folder1 folder2 walk).
Proof.
  intros folder1 folder2 walk.
  unfold Folders.compare_folders, Folders.compare_pairs. split.
  - apply count_three_statuses.
    apply (fold_values _ (Folders.pairs_of folder1 folder2 walk) []);
      [apply status_of_cases | constructor].
  - destruct (fold_keys (Folders.pairs_of folder1 folder2 walk) [] (NoDup_nil _))
      as (_ & _ & K3).
    exact K3.
Qed.

(** X17.  When no path of folder1 is listed twice, the entry of a listed file
    tells what happened to its pair: "File not found" exactly when the
    paired path does not exist, "Match" exactly when it exists and
    [compare_files] says yes, "Not match" exactly when it exists and
    [compare_files] says no; and the dictionary has as many entries as
    there are pairs. *)
Theorem statuses_tell_what_happened :
  forall folder1 folder2 walk file1 file2,
    NoDup (map fst (Folders.pairs_of folder1 folder2 walk)) ->
    In (file1, file2) (Folders.pairs_of folder1 folder2 walk) ->
    let result :=
      Folders.compare_folders path_exists compare_files folder1 folder2 walk in
    (dict_get file1 result = Some "File not found"%string
     <-> path_exists file2 = false)
    /\ (dict_get file1 result = Some "Match"%string
        <-> path_exists file2 = true /\ compare_files file1 file2 = true)
    /\ (dict_get file1 result = Some "Not match"%string
        <-> path_exists file2 = true /\ compare_files file1 file2 = false)
    /\ length result = length (Folders.pairs_of folder1 folder2 walk).
Proof.
  intros folder1 folder2 walk file1 file2 Hnd Hin result.
  assert (Hs : dict_get file1 result
               = Some (Folders.status_of path_exists compare_files file1 file2))
    by (apply fold_status; assumption).
  rewrite Hs. unfold Folders.status_of.
  split; [| split; [| split]].
  - destruct (path_exists file2); [destruct (compare_files file1 file2) |];
      split; intro H; try discriminate; reflexivity.
  - destruct (path_exists file2); [destruct (compare_files file1 file2) |];
      split; intro H; try discriminate; try tauto;
      destruct H; discriminate.
  - destruct (path_exists file2); [destruct (compare_files file1 file2) |];
      split; intro H; try discriminate; try tauto;
      destruct H; discriminate.
  - unfold result, Folders.compare_folders, Folders.compare_pairs.
    apply (fold_length_NoDup _ []); [constructor | exact Hnd |].
    intros f _ [].
Qed.
End FolderFacts.

Lemma statuses_tell_what_happened_witness :
  let path_exists := fun f => String.eqb f "d2/a.parquet"%string in
  let compare_files := fun _ _ : string => true in
  let walk := [("d1"%string, ["a.parquet"%string; "notes.txt"%string]);
               ("d1/sub"%string, ["c.parquet"%string])] in
  let file1 := "d1/sub/c.parquet"%string in
  let file2 := "d2/sub/c.parquet"%string in
  let result :=
    Folders.compare_folders path_exists compare_files "d1"%string "d2"%string
      walk in
  (dict_get file1 result = Some "File not found"%string
   <-> path_exists file2 = false)
  /\ (dict_get file1 result = Some "Match"%string
      <-> path_exists file2 = true /\ compare_files file1 file2 = true)
  /\ (dict_get file1 result = Some "Not match"%string
      <-> path_exists file2 = true /\ compare_files file1 file2 = false)
  /\ length result
     = length (Folders.pairs_of "d1"%string "d2"%string walk).
Proof.
  intros path_exists compare_files walk file1 file2.
  apply (statuses_tell_what_happened path_exists compare_files
           "d1"%string "d2"%string walk file1 file2).
  - vm_compute. repeat constructor; simpl; intuition discriminate.
  - vm_compute. right. left. reflexivity.
Defined.

Lemma prefix_app : forall old rest, prefix old (old ++ rest) = true.
Proof.
  induction old as [| c old IH]; intro rest; simpl.
  - destruct rest; reflexivity.
  - destruct (ascii_dec c c); [apply IH | congruence].
Qed.

Lemma prefix_split : forall old s,
    prefix old s = true -> exists b, s = (old ++ b)%string.
Proof.
  induction old as [| c old IH]; intros s H.
  - exists s. reflexivity.
  - destruct s as [| c' s]; simpl in H; [discriminate |].
    destruct (ascii_dec c c'); [| discriminate]. subst c'.
    destruct (IH s H) as [b ->]. exists b. reflexivity.
Qed.

Lemma replace_from_skip : forall old new o rest,
    Folders.replace_from old new (String.length o) (o ++ rest)
    = Folders.replace_from old new 0 rest.
Proof.
  intros old new. induction o as [| c o IH]; intro rest; simpl.
  - destruct rest; reflexivity.
  - apply IH.
Qed.

Lemma replace_from_head : forall old new c rest,
    Folders.replace_from old new 0 (String c rest)
    = if prefix old (String c rest)
      then (new ++ Folders.replace_from old new (String.length old - 1) rest)%string
      else String c (Folders.replace_from old new 0 rest).
Proof. reflexivity. Qed.

Lemma replace_from_nothing : forall old new s,
    old <> ""%string -> ~ Folders.occurs old s ->
    Folders.replace_from old new 0 s = s.
Proof.
  intros old new s Hne. induction s as [| c s IH]; intro Hno; [reflexivity |].
  rewrite replace_from_head.
  destruct (prefix old (String c s)) eqn:E.
  - exfalso. apply Hno. destruct (prefix_split _ _ E) as [b Hb].
    exists ""%string, b. exact Hb.
  - f_equal. apply IH. intros (a & b & Hab). apply Hno.
    exists (String c a), b. simpl. rewrite Hab. reflexivity.
Qed.

Lemma replace_leading_folder : forall folder1 folder2 rest,
    folder1 <> ""%string ->
    Folders.replace folder1 folder2 (folder1 ++ rest)
    = (folder2 ++ Folders.replace folder1 folder2 rest)%string
    /\ (~ Folders.occurs folder1 rest ->
        Folders.replace folder1 folder2 (folder1 ++ rest)
        = (folder2 ++ rest)%string).
Proof.
  intros folder1 folder2 rest Hne.
  assert (H : Folders.replace folder1 folder2 (folder1 ++ rest)
              = (folder2 ++ Folders.replace folder1 folder2 rest)%string).
  { destruct folder1 as [| c o]; [congruence |]. unfold Folders.replace.
    change (String c o ++ rest)%string with (String c (o ++ rest)).
    rewrite replace_from_head.
    change (String c (o ++ rest)) with (String c o ++ rest)%string.
    rewrite prefix_app. f_equal.
    replace (String.length (String c o) - 1) with (String.length o)
      by (simpl; lia).
    apply replace_from_skip. }
  split; [exact H |]. intro Hno. rewrite H. f_equal.
  destruct folder1 as [| c o]; [congruence |].
  apply replace_from_nothing; assumption.
Qed.

Lemma pairs_of_In : forall folder1 folder2 walk root files file,
    In (root, files) walk -> In file files ->
    Folders.endswith file ".parquet" = true ->
    In (Folders.join root file,
        Folders.join (Folders.replace folder1 folder2 root) file)
       (Folders.pairs_of folder1 folder2 walk).
Proof.
  intros folder1 folder2 walk root files file Hw Hf He.
  unfold Folders.pairs_of. apply in_flat_map. exists (root, files).
  split; [exact Hw |]. apply in_map_iff. exists file.
  split; [reflexivity |]. apply filter_In. auto.
Qed.

(** X18.  Take a non-empty folder1 and a walk that lists no path twice.  For
    a file named *.parquet in the directory folder1 + rest, the status that
    [compare_folders] records under join(folder1 + rest, file) is the one
    of the pair made with join(folder2 + rest', file), where rest' is rest
    with every occurrence of folder1 replaced by folder2: line 27 replaces
    all occurrences, not the leading one only.  When folder1 does not occur
    in rest, the file is therefore compared with the file at the same
    relative path under folder2. *)
Theorem file_is_compared_with_its_counterpart :
  forall path_exists compare_files folder1 folder2 walk rest files file,
    folder1 <> ""%string ->
    NoDup (map fst (Folders.pairs_of folder1 folder2 walk)) ->
    In ((folder1 ++ rest)%string, files) walk ->
    In file files ->
    Folders.endswith file ".parquet" = true ->
    dict_get (Folders.join (folder1 ++ rest) file)
      (Folders.compare_folders path_exists compare_files folder1 folder2 walk)
    = Some (Folders.status_of path_exists compare_files
              (Folders.join (folder1 ++ rest) file)
              (Folders.join
                 (folder2 ++ Folders.replace folder1 folder2 rest) file))
    /\ (~ Folders.occurs folder1 rest ->
        dict_get (Folders.join (folder1 ++ rest) file)
          (Folders.compare_folders path_exists compare_files folder1 folder2
             walk)
        = Some (Folders.status_of path_exists compare_files
                  (Folders.join (folder1 ++ rest) file)
                  (Folders.join (folder2 ++ rest) file))).
Proof.
  intros path_exists compare_files folder1 folder2 walk rest files file
    Hne Hnd Hw Hf He.
  destruct (replace_leading_folder folder1 folder2 rest Hne) as [R1 R2].
  pose proof (pairs_of_In folder1 folder2 walk _ _ _ Hw Hf He) as Hin.
  assert (Hs : dict_get (Folders.join (folder1 ++ rest) file)
                 (Folders.compare_folders path_exists compare_files folder1
                    folder2 walk)
               = Some (Folders.status_of path_exists compare_files
                         (Folders.join (folder1 ++ rest) file)
                         (Folders.join
                            (Folders.replace folder1 folder2 (folder1 ++ rest))
                            file))).
  { unfold Folders.compare_folders, Folders.compare_pairs.
    apply fold_status; assumption. }
  split.
  - rewrite Hs, R1. reflexivity.
  - intro Hno. rewrite Hs, (R2 Hno). reflexivity.
Qed.

Lemma file_is_compared_with_its_counterpart_witness :
  let path_exists := fun f => String.eqb f "d2/sub/c.parquet"%string in
  let compare_files := fun _ _ : string => true in
  let walk := [("d1"%string, ["a.parquet"%string; "notes.txt"%string]);
               (("d1" ++ "/sub")%string, ["c.parquet"%string])] in
  dict_get (Folders.join ("d1" ++ "/sub") "c.parquet")
    (Folders.compare_folders path_exists compare_files "d1"%string
       "d2"%string walk)
  = Some (Folders.status_of path_exists compare_files
            (Folders.join ("d1" ++ "/sub") "c.parquet")
            (Folders.join
               ("d2" ++ Folders.replace "d1" "d2" "/sub") "c.parquet"))
  /\ (~ Folders.occurs "d1"%string "/sub"%string ->
      dict_get (Folders.join ("d1" ++ "/sub") "c.parquet")
        (Folders.compare_folders path_exists compare_files "d1"%string
           "d2"%string walk)
      = Some (Folders.status_of path_exists compare_files
                (Folders.join ("d1" ++ "/sub") "c.parquet")
                (Folders.join ("d2" ++ "/sub") "c.parquet"))).
Proof.
  intros path_exists compare_files walk.
  apply (file_is_compared_with_its_counterpart path_exists compare_files
           "d1"%string "d2"%string walk "/sub"%string ["c.parquet"%string]
           "c.parquet"%string).
  - discriminate.
  - vm_compute. repeat constructor; simpl; intuition discriminate.
  - right. left. reflexivity.
  - left. reflexivity.
  - reflexivity.
Defined.

(** ** The ignore filter *)

Lemma lookup_column_filter : forall c cs cols,
    mem String.eqb c cs = false ->
    lookup_column c
      (filter (fun nc => negb (mem String.eqb (fst nc) cs)) cols)
    = lookup_column c cols.
Proof.
  intros c cs cols Hc. induction cols as [| [n col] rest IH]; [reflexivity |].
  simpl. destruct (mem String.eqb n cs) eqn:En; simpl.
  - destruct (String.eqb c n) eqn:E; [| exact IH].
    apply String.eqb_eq in E. congruence.
  - rewrite IH. reflexivity.
Qed.

Lemma update_column_filter : forall c f cs cols,
    mem String.eqb c cs = false ->
    update_column c f
      (filter (fun nc => negb (mem String.eqb (fst nc) cs)) cols)
    = filter (fun nc => negb (mem String.eqb (fst nc) cs))
        (update_column c f cols).
Proof.
  intros c f cs cols Hc. induction cols as [| [n col] rest IH]; [reflexivity |].
  simpl. destruct (mem String.eqb n cs) eqn:En; simpl.
  - destruct (String.eqb c n) eqn:E.
    + apply String.eqb_eq in E. congruence.
    + simpl. rewrite En. simpl. exact IH.
  - destruct (String.eqb c n) eqn:E; simpl; rewrite En; simpl.
    + reflexivity.
    + rewrite IH. reflexivity.
Qed.

Lemma sort_first_cell_drop : forall c cs df,
    mem String.eqb c cs = false ->
    sort_first_cell c (drop cs df)
    = (df' <- sort_first_cell c df ;; Ok (drop cs df')).
Proof.
  intros c cs df Hc. unfold sort_first_cell, getattr, drop. simpl.
  rewrite lookup_column_filter by exact Hc.
  destruct (lookup_column c (columns df)) as [col |]; [| reflexivity].
  simpl. unfold series_get. simpl.
  destruct (index_of label_eqb [SInt 0%Z] (index df)) as [i |] eqn:Ei;
    [| reflexivity].
  simpl. destruct (Np.sort (nth i (cells col) CNull)) as [v | e];
    [| reflexivity].
  simpl. unfold set_cell. simpl. rewrite Ei. simpl.
  rewrite update_column_filter by exact Hc. reflexivity.
Qed.

Lemma sort_first_cell_side : forall (b : bool) c cs df,
    mem String.eqb c cs = false ->
    sort_first_cell c (if b then drop cs df else df)
    = (df' <- sort_first_cell c df ;; Ok (if b then drop cs df' else df')).
Proof.
  intros [|] c cs df Hc; [apply sort_first_cell_drop; exact Hc |].
  destruct (sort_first_cell c df); reflexivity.
Qed.

Lemma prenormalize_sides_dropped : forall (b1 b2 : bool) cs d1 d2,
    (forall c, In c pcodes_columns -> mem String.eqb c cs = false) ->
    prenormalize (if b1 then drop cs d1 else d1) (if b2 then drop cs d2 else d2)
    = (' (p1, p2) <- prenormalize d1 d2 ;;
       Ok (if b1 then drop cs p1 else p1, if b2 then drop cs p2 else p2)).
Proof.
  intros b1 b2 cs d1 d2 Hc. unfold prenormalize.
  assert (H1 : mem String.eqb "pcodes_power_poles"%string cs = false)
    by (apply Hc; simpl; auto).
  assert (H2 : mem String.eqb "pcodes_buildings"%string cs = false)
    by (apply Hc; simpl; auto).
  assert (H3 : mem String.eqb "pcodes_power_lines"%string cs = false)
    by (apply Hc; simpl; auto).
  rewrite (sort_first_cell_side b1 _ cs d1 H1).
  destruct (sort_first_cell "pcodes_power_poles" d1) as [a1 | e];
    [| reflexivity].
  simpl. rewrite (sort_first_cell_side b2 _ cs d2 H1).
  destruct (sort_first_cell "pcodes_power_poles" d2) as [a2 | e];
    [| reflexivity].
  simpl. rewrite (sort_first_cell_side b1 _ cs a1 H2).
  destruct (sort_first_cell "pcodes_buildings" a1) as [a3 | e];
    [| reflexivity].
  simpl. rewrite (sort_first_cell_side b2 _ cs a2 H2).
  destruct (sort_first_cell "pcodes_buildings" a2) as [a4 | e];
    [| reflexivity].
  simpl. rewrite (sort_first_cell_side b1 _ cs a3 H3).
  destruct (sort_first_cell "pcodes_power_lines" a3) as [a5 | e];
    [| reflexivity].
  simpl. rewrite (sort_first_cell_side b2 _ cs a4 H3).
  destruct (sort_first_cell "pcodes_power_lines" a4) as [a6 | e];
    reflexivity.
Qed.

Lemma loaded_ignoring : forall ig t,
    loaded (ignoring ig t)
    = if issubset String.eqb ig (map fst (tcolumns t))
      then drop ig (loaded t) else loaded t.
Proof.
  intros ig t. unfold ignoring.
  destruct (issubset String.eqb ig (map fst (tcolumns t))); reflexivity.
Qed.

Lemma drop_nothing : forall df, drop [] df = df.
Proof.
  intros [idx cols]. unfold drop. simpl. f_equal.
  induction cols as [| nc rest IH]; simpl; [reflexivity |].
  rewrite IH. reflexivity.
Qed.

Lemma drop_ignored_side : forall ig t p,
    column_names p = map fst (tcolumns t) ->
    drop_ignored ig p
    = if issubset String.eqb ig (map fst (tcolumns t)) then drop ig p else p.
Proof.
  intros ig t p Hn. unfold drop_ignored. destruct ig as [| c cs].
  - simpl. rewrite drop_nothing. reflexivity.
  - rewrite Hn. reflexivity.
Qed.

(** X19.  Ignoring columns, none of which is one of the three array columns,
    gives what [compare_data] gives without an ignore list on the tables
    written without them: a table that has all the ignored columns is
    compared without them, and a table that lacks one of them is compared
    with all its columns. *)
Theorem ignored_columns_are_left_out :
  forall name t1 t2 index_cols ignore_cols,
    (forall c, In c ignore_cols -> ~ In c pcodes_columns) ->
    compare_data name t1 t2 index_cols ignore_cols
    = compare_data name (ignoring ignore_cols t1) (ignoring ignore_cols t2)
        index_cols [].
Proof.
  intros name t1 t2 ic ig Hd.
  assert (Hc : forall c, In c pcodes_columns -> mem String.eqb c ig = false).
  { intros c Hc. apply (mem_false String.eqb String.eqb_eq).
    intro Hin. exact (Hd c Hin Hc). }
  unfold compare_data, prepare.
  rewrite !loaded_ignoring, (prenormalize_sides_dropped _ _ ig _ _ Hc).
  destruct (prenormalize (loaded t1) (loaded t2)) as [[p1 p2] | e] eqn:E;
    [| reflexivity].
  apply prenormalize_sides in E. destruct E as [E1 E2].
  apply prenormalize_side_inv in E1, E2.
  destruct E1 as (_ & _ & N1 & _), E2 as (_ & _ & N2 & _).
  simpl.
  rewrite (drop_ignored_side ig t1 p1 N1), (drop_ignored_side ig t2 p2 N2).
  reflexivity.
Qed.

Lemma ignored_columns_are_left_out_witness :
  compare_data "f" Examples.with_debug Examples.without_debug []
    ["debug"%string]
  = compare_data "f" (ignoring ["debug"%string] Examples.with_debug)
      (ignoring ["debug"%string] Examples.without_debug) [] [].
Proof.
  apply (ignored_columns_are_left_out "f" Examples.with_debug
           Examples.without_debug [] ["debug"%string]).
  intros c [<- | []]. simpl. intuition discriminate.
Defined.

(** ** The order inside the arrays of the first row *)

Lemma lookup_update_map : forall c f cols,
    lookup_column c (update_column c f cols)
    = option_map f (lookup_column c cols).
Proof.
  intros c f cols. induction cols as [| [n x] rest IH]; [reflexivity |].
  simpl. destruct (String.eqb c n) eqn:E; simpl; rewrite E; auto.
Qed.

Lemma update_column_twice : forall c f g cols,
    update_column c g (update_column c f cols)
    = update_column c (fun col => g (f col)) cols.
Proof.
  intros c f g cols. induction cols as [| [n x] rest IH]; [reflexivity |].
  simpl. destruct (String.eqb c n) eqn:E; simpl; rewrite E;
    [reflexivity | rewrite IH; reflexivity].
Qed.

Lemma update_column_ext : forall c f g cols,
    (forall col, f col = g col) ->
    update_column c f cols = update_column c g cols.
Proof.
  intros c f g cols H. induction cols as [| [n x] rest IH]; [reflexivity |].
  simpl. rewrite H, IH. reflexivity.
Qed.

Lemma update_column_comm : forall c c' f g cols,
    c' <> c ->
    update_column c' g (update_column c f cols)
    = update_column c f (update_column c' g cols).
Proof.
  intros c c' f g cols Hne. induction cols as [| [n x] rest IH];
    [reflexivity |].
  simpl. destruct (String.eqb c n) eqn:E, (String.eqb c' n) eqn:E'; simpl;
    rewrite ?E, ?E'; try reflexivity.
  - apply String.eqb_eq in E, E'. congruence.
  - rewrite IH. reflexivity.
Qed.

(** The assignment to another column goes past the array. *)
Lemma sort_first_cell_other : forall c c' a df,
    c' <> c ->
    sort_first_cell c'
      (mk_frame (index df) (update_column c (first_array a) (columns df)))
    = (d <- sort_first_cell c' df ;;
       Ok (mk_frame (index d) (update_column c (first_array a) (columns d)))).
Proof.
  intros c c' a df Hne. unfold sort_first_cell, getattr. simpl.
  rewrite lookup_update_other by exact Hne.
  destruct (lookup_column c' (columns df)) as [col |]; [| reflexivity].
  simpl. unfold series_get. simpl.
  destruct (index_of label_eqb [SInt 0%Z] (index df)) as [i |] eqn:Ei;
    [| reflexivity].
  simpl. destruct (Np.sort (nth i (cells col) CNull)) as [v | e];
    [| reflexivity].
  simpl. unfold set_cell. simpl. rewrite Ei. simpl.
  rewrite update_column_comm by exact Hne. reflexivity.
Qed.

(** The assignment to the column of the array forgets its order. *)
Lemma sort_first_cell_same : forall c a a' df,
    (forall i, index_of label_eqb [SInt 0%Z] (index df) = Some i -> i = 0) ->
    Permutation a a' ->
    sort_first_cell c
      (mk_frame (index df) (update_column c (first_array a) (columns df)))
    = sort_first_cell c
        (mk_frame (index df) (update_column c (first_array a') (columns df))).
Proof.
  intros c a a' df Hi P. unfold sort_first_cell, getattr. simpl.
  rewrite !lookup_update_map.
  destruct (lookup_column c (columns df)) as [col |]; [| reflexivity].
  simpl. unfold series_get. simpl.
  destruct (index_of label_eqb [SInt 0%Z] (index df)) as [i |] eqn:Ei;
    [| reflexivity].
  rewrite (Hi i eq_refl). simpl.
  destruct (cells col) as [| x xs] eqn:Ec; [reflexivity |].
  simpl. unfold set_cell. simpl. rewrite Ei, (Hi i eq_refl). simpl.
  rewrite !update_column_twice. f_equal. f_equal.
  apply update_column_ext. intro col0. unfold first_array. simpl.
  rewrite (np_sort_order_insensitive a a' P).
  destruct (cells col0); reflexivity.
Qed.

Lemma loaded_first_label : forall t i,
    index_of label_eqb [SInt 0%Z] (index (loaded t)) = Some i -> i = 0.
Proof.
  intros t i H. unfold loaded in H. simpl in H.
  destruct (nrows t) as [| n]; [discriminate |].
  rewrite RangeIndex_first in H by discriminate. congruence.
Qed.

Lemma prenormalize_left_array : forall c a a' d1 d2,
    (forall i, index_of label_eqb [SInt 0%Z] (index d1) = Some i -> i = 0) ->
    In c pcodes_columns -> Permutation a a' ->
    prenormalize
      (mk_frame (index d1) (update_column c (first_array a) (columns d1))) d2
    = prenormalize
        (mk_frame (index d1) (update_column c (first_array a') (columns d1)))
        d2.
Proof.
  intros c a a' d1 d2 Hi Hc P. unfold prenormalize.
  destruct Hc as [<- | [<- | [<- | []]]].
  - rewrite (sort_first_cell_same _ a a' d1 Hi P). reflexivity.
  - rewrite !sort_first_cell_other by discriminate.
    destruct (sort_first_cell "pcodes_power_poles" d1) as [x |] eqn:E1;
      [| reflexivity].
    simpl. destruct (sort_first_cell "pcodes_power_poles" d2) as [y |];
      [| reflexivity].
    simpl. apply sort_first_cell_inv in E1. destruct E1 as (_ & _ & _ & X1).
    rewrite (sort_first_cell_same _ a a' x) by (try rewrite X1; assumption).
    reflexivity.
  - rewrite !sort_first_cell_other by discriminate.
    destruct (sort_first_cell "pcodes_power_poles" d1) as [x |] eqn:E1;
      [| reflexivity].
    simpl. destruct (sort_first_cell "pcodes_power_poles" d2) as [y |];
      [| reflexivity].
    simpl. rewrite !sort_first_cell_other by discriminate.
    destruct (sort_first_cell "pcodes_buildings" x) as [x' |] eqn:E2;
      [| reflexivity].
    simpl. destruct (sort_first_cell "pcodes_buildings" y) as [y' |];
      [| reflexivity].
    simpl. apply sort_first_cell_inv in E1, E2.
    destruct E1 as (_ & _ & _ & X1), E2 as (_ & _ & _ & X2).
    rewrite (sort_first_cell_same _ a a' x')
      by (try rewrite X2, X1; assumption).
    reflexivity.
Qed.

Lemma prenormalize_right_array : forall c a a' d1 d2,
    (forall i, index_of label_eqb [SInt 0%Z] (index d2) = Some i -> i = 0) ->
    In c pcodes_columns -> Permutation a a' ->
    prenormalize d1
      (mk_frame (index d2) (update_column c (first_array a) (columns d2)))
    = prenormalize d1
        (mk_frame (index d2) (update_column c (first_array a') (columns d2))).
Proof.
  intros c a a' d1 d2 Hi Hc P. unfold prenormalize.
  destruct (sort_first_cell "pcodes_power_poles" d1) as [x |];
    [| reflexivity].
  simpl. destruct Hc as [<- | [<- | [<- | []]]].
  - rewrite (sort_first_cell_same _ a a' d2 Hi P). reflexivity.
  - rewrite !sort_first_cell_other by discriminate.
    destruct (sort_first_cell "pcodes_power_poles" d2) as [y |] eqn:E1;
      [| reflexivity].
    simpl. destruct (sort_first_cell "pcodes_buildings" x) as [x' |];
      [| reflexivity].
    simpl. apply sort_first_cell_inv in E1. destruct E1 as (_ & _ & _ & X1).
    rewrite (sort_first_cell_same _ a a' y) by (try rewrite X1; assumption).
    reflexivity.
  - rewrite !sort_first_cell_other by discriminate.
    destruct (sort_first_cell "pcodes_power_poles" d2) as [y |] eqn:E1;
      [| reflexivity].
    simpl. destruct (sort_first_cell "pcodes_buildings" x) as [x' |];
      [| reflexivity].
    simpl. rewrite !sort_first_cell_other by discriminate.
    destruct (sort_first_cell "pcodes_buildings" y) as [y' |] eqn:E2;
      [| reflexivity].
    simpl. destruct (sort_first_cell "pcodes_power_lines" x') as [x'' |];
      [| reflexivity].
    simpl. apply sort_first_cell_inv in E1, E2.
    destruct E1 as (_ & _ & _ & X1), E2 as (_ & _ & _ & X2).
    rewrite (sort_first_cell_same _ a a' y')
      by (try rewrite X2, X1; assumption).
    reflexivity.
Qed.

(** X20.  The order of the elements of the array in the first row of one of
    the three array columns has no effect on what [compare_data] does: two
    left tables, or two right tables, that differ only by a rearrangement
    of that array give the same report or the same exception. *)
Theorem first_row_array_order_is_irrelevant :
  forall name t1 t2 index_cols ignore_cols c a a',
    In c pcodes_columns -> Permutation a a' ->
    compare_data name (with_first_array c a t1) t2 index_cols ignore_cols
    = compare_data name (with_first_array c a' t1) t2 index_cols ignore_cols
    /\ compare_data name t1 (with_first_array c a t2) index_cols ignore_cols
       = compare_data name t1 (with_first_array c a' t2) index_cols
           ignore_cols.
Proof.
  intros name t1 t2 ic ig c a a' Hc P. unfold compare_data, prepare. split.
  - change (loaded (with_first_array c a t1))
      with (mk_frame (index (loaded t1))
              (update_column c (first_array a) (columns (loaded t1)))).
    change (loaded (with_first_array c a' t1))
      with (mk_frame (index (loaded t1))
              (update_column c (first_array a') (columns (loaded t1)))).
    rewrite (prenormalize_left_array c a a' (loaded t1) (loaded t2)
               (loaded_first_label t1) Hc P).
    reflexivity.
  - change (loaded (with_first_array c a t2))
      with (mk_frame (index (loaded t2))
              (update_column c (first_array a) (columns (loaded t2)))).
    change (loaded (with_first_array c a' t2))
      with (mk_frame (index (loaded t2))
              (update_column c (first_array a') (columns (loaded t2)))).
    rewrite (prenormalize_right_array c a a' (loaded t1) (loaded t2)
               (loaded_first_label t2) Hc P).
    reflexivity.
Qed.

Lemma first_row_array_order_is_irrelevant_witness :
  compare_data "f"
    (with_first_array "pcodes_buildings" [2; 1]%Z Examples.arrays_left)
    Examples.arrays_right [] []
  = compare_data "f"
      (with_first_array "pcodes_buildings" [1; 2]%Z Examples.arrays_left)
      Examples.arrays_right [] []
  /\ compare_data "f" Examples.arrays_left
       (with_first_array "pcodes_buildings" [2; 1]%Z Examples.arrays_right)
       [] []
     = compare_data "f" Examples.arrays_left
         (with_first_array "pcodes_buildings" [1; 2]%Z Examples.arrays_right)
         [] [].
Proof.
  apply (first_row_array_order_is_irrelevant "f" Examples.arrays_left
           Examples.arrays_right [] [] "pcodes_buildings" [2; 1]%Z [1; 2]%Z).
  - simpl. auto.
  - apply perm_swap.
Defined.

(** ** The comparison by position *)

Lemma RangeIndex_mem : forall i m,
    mem label_eqb [SInt (Z.of_nat i)] (RangeIndex m) = (i <? m).
Proof.
  intros i m. destruct (i <? m) eqn:E.
  - apply Nat.ltb_lt in E. apply (mem_In label_eqb label_eqb_eq).
    unfold RangeIndex. apply in_map_iff. exists i. split; [reflexivity |].
    apply in_seq. lia.
  - apply Nat.ltb_ge in E. apply (mem_false label_eqb label_eqb_eq).
    unfold RangeIndex. rewrite in_map_iff. intros (j & Hj & Hin).
    apply in_seq in Hin. inversion Hj. lia.
Qed.

Lemma filter_seq_from : forall n m,
    filter (fun i => negb (i <? m)) (seq 0 n) = seq m (n - m).
Proof.
  induction n as [| n IH]; intro m; [reflexivity |].
  rewrite seq_S, filter_app, IH.
  change (filter (fun i => negb (i <? m)) [0 + n])
    with (if negb (n <? m) then [n] else []).
  destruct (n <? m) eqn:E.
  - apply Nat.ltb_lt in E. replace (S n - m) with 0 by lia.
    replace (n - m) with 0 by lia. reflexivity.
  - apply Nat.ltb_ge in E. replace (S n - m) with (S (n - m)) by lia.
    rewrite seq_S. replace (m + (n - m)) with n by lia. reflexivity.
Qed.

Lemma filter_of_map {A B : Type} (f : A -> B) (p : B -> bool) : forall l,
    filter p (map f l) = map f (filter (fun x => p (f x)) l).
Proof.
  induction l as [| x xs IH]; simpl; [reflexivity |].
  destruct (p (f x)); simpl; rewrite IH; reflexivity.
Qed.

Lemma RangeIndex_diff : forall n m,
    set_diff label_eqb (RangeIndex n) (RangeIndex m)
    = map (fun i => [SInt (Z.of_nat i)]) (seq m (n - m)).
Proof.
  intros n m. unfold set_diff.
  rewrite (set_of_NoDup_id label_eqb label_eqb_eq _ (RangeIndex_NoDup n)).
  unfold RangeIndex at 2. rewrite filter_of_map. f_equal.
  rewrite <- filter_seq_from. apply filter_ext. intro i.
  rewrite RangeIndex_mem. reflexivity.
Qed.

Lemma sorted_range : forall k m,
    sorted label_leb (map (fun i => [SInt (Z.of_nat i)]) (seq m k))
    = map (fun i => [SInt (Z.of_nat i)]) (seq m k).
Proof.
  induction k as [| k IH]; intro m; [reflexivity |].
  change (insert label_leb [SInt (Z.of_nat m)]
            (sorted label_leb
               (map (fun i => [SInt (Z.of_nat i)]) (seq (S m) k)))
          = [SInt (Z.of_nat m)]
              :: map (fun i => [SInt (Z.of_nat i)]) (seq (S m) k)).
  rewrite IH. destruct k as [| k]; [reflexivity |].
  change (seq (S m) (S k)) with (S m :: seq (S (S m)) k).
  change ((if label_leb [SInt (Z.of_nat m)] [SInt (Z.of_nat (S m))]
           then [SInt (Z.of_nat m)]
                  :: map (fun i => [SInt (Z.of_nat i)])
                       (S m :: seq (S (S m)) k)
           else [SInt (Z.of_nat (S m))]
                  :: insert label_leb [SInt (Z.of_nat m)]
                       (map (fun i => [SInt (Z.of_nat i)]) (seq (S (S m)) k)))
          = [SInt (Z.of_nat m)]
              :: map (fun i => [SInt (Z.of_nat i)]) (S m :: seq (S (S m)) k)).
  replace (label_leb [SInt (Z.of_nat m)] [SInt (Z.of_nat (S m))]) with true;
    [reflexivity |].
  symmetry. unfold label_leb, scalar_eqb, scalar_leb.
  destruct (Z.eqb_spec (Z.of_nat m) (Z.of_nat (S m))) as [E | _]; [lia |].
  apply Z.leb_le. lia.
Qed.

Lemma RangeIndex_equal : forall n m, RangeIndex n = RangeIndex m -> n = m.
Proof.
  intros n m H. apply (f_equal (@length label)) in H.
  rewrite !RangeIndex_length in H. exact H.
Qed.

Lemma prepare_by_position : forall name t1 t2 ig res d1 d2,
    prepare name t1 t2 [] ig = Ok (res, d1, d2) ->
    index d1 = RangeIndex (nrows t1) /\ index d2 = RangeIndex (nrows t2)
    /\ left_duplicate res = false /\ right_duplicate res = false
    /\ left_index_duplicates res = None /\ right_index_duplicates res = None.
Proof.
  intros name t1 t2 ig res d1 d2 H.
  destruct (prepare_Ok _ _ _ _ _ _ _ _ H) as (p1 & p2 & Hp & Hi).
  simpl in Hi. inversion Hi; subst. clear Hi.
  apply prenormalize_sides in Hp. destruct Hp as [E1 E2].
  apply prenormalize_side_inv in E1, E2.
  destruct E1 as (_ & _ & _ & X1), E2 as (_ & _ & _ & X2).
  rewrite !drop_ignored_index, X1, X2.
  unfold compare_column_sets. destruct (negb _); simpl; repeat split.
Qed.

(** X21.  Without key columns the rows are compared by position.  In every
    report that [compare_data] then returns, no duplicate is flagged, each
    side counts the rows of its table, the common count is the smaller of
    the two, index_match says that the two tables have the same number of
    rows, and the only-indexes of a side are the positions of the rows that
    the other table is too short to have, in ascending order. *)
Theorem rows_are_compared_by_position_without_keys :
  forall name t1 t2 ignore_cols r,
    compare_data name t1 t2 [] ignore_cols = Ok r ->
    left_duplicate r = false /\ right_duplicate r = false
    /\ left_index_duplicates r = None /\ right_index_duplicates r = None
    /\ left_index_count r = nrows t1 /\ right_index_count r = nrows t2
    /\ common_index_count r = Nat.min (nrows t1) (nrows t2)
    /\ (index_match r = true <-> nrows t1 = nrows t2)
    /\ left_only_indexes r
       = map (fun i => [SInt (Z.of_nat i)])
           (seq (nrows t2) (nrows t1 - nrows t2))
    /\ right_only_indexes r
       = map (fun i => [SInt (Z.of_nat i)])
           (seq (nrows t1) (nrows t2 - nrows t1)).
Proof.
  intros name t1 t2 ig r H.
  destruct (compare_data_Ok _ _ _ _ _ _ H)
    as (res & d1 & d2 & _ & _ & Hp & _).
  destruct (prepare_by_position _ _ _ _ _ _ _ Hp)
    as (I1 & I2 & D1 & D2 & T1 & T2).
  destruct (compare_data_index_fields _ _ _ _ _ _ _ _ _ H Hp)
    as (F1 & F2 & F3 & F4 & F5 & F6 & _).
  destruct (compare_data_side_fields _ _ _ _ _ _ _ _ _ H Hp) as (_ & _ & C).
  unfold len in *. rewrite I1 in F5, C. rewrite I2 in F6, C.
  rewrite RangeIndex_length in F5, F6, C.
  split; [congruence |]. split; [congruence |]. split; [congruence |].
  split; [congruence |]. split; [exact F5 |]. split; [exact F6 |].
  destruct (compare_data_index_report _ _ _ _ _ _ _ _ _ H Hp)
    as [(Heq & -> & -> & ->) | (Hne & -> & -> & ->)];
    rewrite I1, I2 in *.
  - rewrite Heq in C. apply index_equals_eq, RangeIndex_equal in Heq.
    rewrite C, Heq, Nat.min_id, Nat.sub_diag. simpl. tauto.
  - rewrite Hne in C.
    assert (Hnm : nrows t1 <> nrows t2).
    { intro E. rewrite E in Hne.
      rewrite (proj2 (index_equals_eq _ _) eq_refl) in Hne. discriminate. }
    rewrite !RangeIndex_diff, !sorted_range.
    pose proof (set_diff_inter_length (RangeIndex (nrows t1))
                  (RangeIndex (nrows t2)) (RangeIndex_NoDup _)) as L.
    rewrite RangeIndex_diff, length_map, length_seq, RangeIndex_length in L.
    repeat split; try discriminate; try congruence. lia.
Qed.

Lemma rows_are_compared_by_position_without_keys_witness :
  exists r,
    compare_data "left.parquet" Examples.without_debug
      Examples.arrays_right [] [] = Ok r
    /\ left_duplicate r = false /\ right_duplicate r = false
    /\ left_index_duplicates r = None /\ right_index_duplicates r = None
    /\ left_index_count r = nrows Examples.without_debug
    /\ right_index_count r = nrows Examples.arrays_right
    /\ common_index_count r
       = Nat.min (nrows Examples.without_debug)
           (nrows Examples.arrays_right)
    /\ (index_match r = true
        <-> nrows Examples.without_debug
            = nrows Examples.arrays_right)
    /\ left_only_indexes r
       = map (fun i => [SInt (Z.of_nat i)])
           (seq (nrows Examples.arrays_right)
              (nrows Examples.without_debug
               - nrows Examples.arrays_right))
    /\ right_only_indexes r
       = map (fun i => [SInt (Z.of_nat i)])
           (seq (nrows Examples.without_debug)
              (nrows Examples.arrays_right
               - nrows Examples.without_debug)).
Proof.
  eexists. split; [vm_compute; reflexivity |].
  apply (rows_are_compared_by_position_without_keys "left.parquet"%string
           Examples.without_debug Examples.arrays_right []).
  vm_compute. reflexivity.
Defined.
